(** * The imposter of src/models/imposter.js

    A shallow embedding of the module [src/models/imposter.js] and a
    verification of its request accounting, its error mapping, its match
    recording and its serialization ([toJSON]).

    The module is JavaScript: objects are mutable and shared by reference.
    The embedding therefore keeps an explicit store of objects and threads it
    through every operation in a small state-and-exception monad. *)

From stdpp Require Import gmap strings list fin_maps pretty sorting.

Open Scope string_scope.

(** ** JavaScript values and the object store *)

(** Numbers are the integers; the program only counts and copies them.  A
    function is known by a name; the program calls the functions it finds
    under [recordMatch] and gives no function a property. *)
Inductive value :=
| VUndefined
| VNull
| VBool (b : bool)
| VNum (z : Z)
| VStr (s : string)
| VRef (l : nat)
| VFun (name : string).

(** An object is a finite map from property names to values, an array a list
    of values.  Arrays carry no named properties of their own here. *)
Inductive cell :=
| CObj (props : gmap string value)
| CArr (elems : list value).

(** The store holds the objects that the collaborators of the imposter
    (transport, stub store, resolver) create and share with it: stubs,
    responses, response configurations, the state bag. *)
Abbreviation heap := (gmap nat cell).

#[global] Instance value_eq_dec : EqDecision value.
Proof. solve_decision. Defined.

#[global] Instance cell_eq_dec : EqDecision cell.
Proof. solve_decision. Defined.

(** What a [throw] carries: a [TypeError] of the runtime, or a value thrown
    by a collaborator. *)
Inductive exn :=
| TypeError
| Thrown (e : value).

Inductive outcome (A : Type) :=
| Ok (a : A)
| Throw (e : exn).
Arguments Ok {A} a.
Arguments Throw {A} e.

(** ToBoolean. *)
Definition truthy (v : value) : bool :=
  match v with
  | VUndefined | VNull => false
  | VBool b => b
  | VNum z => negb (z =? 0)%Z
  | VStr s => negb (String.eqb s "")
  | VRef _ => true
  | VFun _ => true
  end.

(** [a || b] *)
Definition js_or (a b : value) : value := if truthy a then a else b.

(** [a === b] on the values of the model. *)
Definition strict_eq (a b : value) : bool := bool_decide (a = b).

(** Modelled from the spec: [helpers.defined] of [../util/helpers], which is
    not part of the sources at hand; a value is defined when it is not
    [undefined] ([typeof v !== 'undefined']). *)
Definition defined (v : value) : bool :=
  match v with VUndefined => false | _ => true end.

(** ** Plain data

    A request arrives as plain data (what [JSON.stringify] can print): a tree
    without sharing, held by value.  The fields of an object are listed in
    order. *)
#[warnings="-register-all"]
Inductive json :=
| JNull
| JBool (b : bool)
| JNum (z : Z)
| JStr (s : string)
| JArr (items : list json)
| JObj (fields : list (string * json)).

(** A request is an object. *)
Abbreviation request := (list (string * json)).

(** [o.k = v] on the fields of a plain object: an existing field keeps its
    place, a new one goes last. *)
Fixpoint set_field (k : string) (v : json) (fields : list (string * json))
  : list (string * json) :=
  match fields with
  | [] => [(k, v)]
  | (k', v') :: rest =>
      if String.eqb k k' then (k, v) :: rest else (k', v') :: set_field k v rest
  end.

Fixpoint get_field (k : string) (fields : list (string * json)) : option json :=
  match fields with
  | [] => None
  | (k', v') :: rest => if String.eqb k k' then Some v' else get_field k rest
  end.

(** ** The state of one imposter *)

(** A promise that has not settled yet, with what its [then] callback
    captured: [getResponseFor] captures the matched response configuration,
    [getProxyResponseFor] captures nothing. *)
Inductive pending :=
| PResolve (responseConfig : value)
| PResolveProxy.

(** The calls made to the match recorders, in order. *)
Inductive call :=
| ConfigRecordMatch (responseConfig : value) (response : value)
| ResponseRecordMatch (response : value).

(** [numberOfRequests] and [requests] are the variables of the closure of
    [create]; no collaborator holds a reference to either.  The counter is a
    natural number: a JavaScript number counts exactly up to 2^53, a bound
    that is left out here.  [store] is the shared object store.  [inflight]
    holds the promises awaiting settlement and [calls] is the trace of
    match-recorder invocations. *)
Record state := State {
  numberOfRequests : nat;
  requests : list request;
  store : heap;
  inflight : gmap nat pending;
  calls : list call
}.

Definition set_numberOfRequests (n : nat) (s : state) : state :=
  State n (requests s) (store s) (inflight s) (calls s).
Definition set_requests (l : list request) (s : state) : state :=
  State (numberOfRequests s) l (store s) (inflight s) (calls s).
Definition set_store (h : heap) (s : state) : state :=
  State (numberOfRequests s) (requests s) h (inflight s) (calls s).
Definition set_inflight (p : gmap nat pending) (s : state) : state :=
  State (numberOfRequests s) (requests s) (store s) p (calls s).
Definition set_calls (c : list call) (s : state) : state :=
  State (numberOfRequests s) (requests s) (store s) (inflight s) c.

(** ** The monad: state, and an exception that keeps the state reached *)

Definition M (A : Type) : Type := state -> outcome A * state.

Definition ret {A} (a : A) : M A := fun s => (Ok a, s).
Definition throw {A} (e : exn) : M A := fun s => (Throw e, s).
Definition bind {A B} (m : M A) (k : A -> M B) : M B :=
  fun s => match m s with
           | (Ok a, s') => k a s'
           | (Throw e, s') => (Throw e, s')
           end.
Definition get_state : M state := fun s => (Ok s, s).
Definition modify (f : state -> state) : M unit := fun s => (Ok tt, f s).

#[global] Instance M_ret : MRet M := @ret.
#[global] Instance M_bind : MBind M := fun A B k m => bind m k.

(** A collaborator call: it sees and changes the store only. *)
Definition collab {A} (f : heap -> outcome A * heap) : M A :=
  fun s => let '(o, h) := f (store s) in (o, set_store h s).

(** ** Object operations *)

(** [v.k] for the property names this module reads: none of them is defined
    on the prototypes of primitives or arrays. *)
Definition get_prop (v : value) (k : string) : M value :=
  fun s =>
    match v with
    | VUndefined | VNull => (Throw TypeError, s)
    | VRef l =>
        match store s !! l with
        | Some (CObj m) => (Ok (default VUndefined (m !! k)), s)
        | Some (CArr _) => (Ok VUndefined, s)
        | None => (Throw TypeError, s)
        end
    | _ => (Ok VUndefined, s)
    end.

(** [v.hasOwnProperty(k)] *)
Definition has_own_property (v : value) (k : string) : M bool :=
  fun s =>
    match v with
    | VUndefined | VNull => (Throw TypeError, s)
    | VRef l =>
        match store s !! l with
        | Some (CObj m) => (Ok (bool_decide (is_Some (m !! k))), s)
        | Some (CArr _) => (Ok false, s)
        | None => (Throw TypeError, s)
        end
    | _ => (Ok false, s)
    end.

(** [v.k = x] in strict mode: a [TypeError] on a primitive.  Like an array,
    a function carries no named property here. *)
Definition set_prop (v : value) (k : string) (x : value) : M unit :=
  fun s =>
    match v with
    | VRef l =>
        match store s !! l with
        | Some (CObj m) => (Ok tt, set_store (<[l := CObj (<[k := x]> m)]> (store s)) s)
        | Some (CArr _) => (Ok tt, s)
        | None => (Throw TypeError, s)
        end
    | VFun _ => (Ok tt, s)
    | _ => (Throw TypeError, s)
    end.

(** [delete v.k] *)
Definition delete_prop (v : value) (k : string) : M unit :=
  fun s =>
    match v with
    | VUndefined | VNull => (Throw TypeError, s)
    | VRef l =>
        match store s !! l with
        | Some (CObj m) => (Ok tt, set_store (<[l := CObj (delete k m)]> (store s)) s)
        | Some (CArr _) => (Ok tt, s)
        | None => (Throw TypeError, s)
        end
    | _ => (Ok tt, s)
    end.

(** The elements of [v] when [v] is an array; calling [forEach] or [filter]
    on anything else is a [TypeError]. *)
Definition array_elems (v : value) : M (list value) :=
  fun s =>
    match v with
    | VRef l =>
        match store s !! l with
        | Some (CArr vs) => (Ok vs, s)
        | _ => (Throw TypeError, s)
        end
    | _ => (Throw TypeError, s)
    end.

(** [v.length > 0] *)
Definition length_positive (v : value) : M bool :=
  fun s =>
    match v with
    | VUndefined | VNull => (Throw TypeError, s)
    | VRef l =>
        match store s !! l with
        | Some (CArr vs) => (Ok (bool_decide (0 < length vs)), s)
        | Some (CObj m) =>
            (Ok (match m !! "length" with Some (VNum z) => bool_decide (0 < z)%Z | _ => false end), s)
        | None => (Throw TypeError, s)
        end
    | VStr x => (Ok (bool_decide (0 < String.length x)), s)
    | _ => (Ok false, s)
    end.

(** [Object.keys(v)], each key with the value [v[key]]. *)
Definition object_entries (v : value) : M (list (string * value)) :=
  fun s =>
    match v with
    | VUndefined | VNull => (Throw TypeError, s)
    | VRef l =>
        match store s !! l with
        | Some (CObj m) => (Ok (map_to_list m), s)
        | Some (CArr vs) => (Ok (imap (fun i x => (pretty i, x)) vs), s)
        | None => (Throw TypeError, s)
        end
    | VStr x =>
        (Ok (imap (fun i c => (pretty i, VStr (String c ""))) (String.list_ascii_of_string x)), s)
    | _ => (Ok [], s)
    end.

(** A new object in the store. *)
Definition alloc (c : cell) : M value :=
  fun s =>
    let l := fresh (dom (store s)) in
    (Ok (VRef l), set_store (<[l := c]> (store s)) s).

(** [a.forEach(f)] over the elements [l] of [a]. *)
Fixpoint for_each {A} (f : A -> M unit) (l : list A) : M unit :=
  match l with
  | [] => ret tt
  | x :: l' => f x ;; for_each f l'
  end.

(** The elements kept by [a.filter(p)]. *)
Fixpoint filter_elems (p : value -> M bool) (l : list value) : M (list value) :=
  match l with
  | [] => ret []
  | x :: l' =>
      b ← p x;
      rest ← filter_elems p l';
      ret (if b : bool then x :: rest else rest)
  end.

(** ** What [create] is given *)

(** [config]: the command line options read by this module. *)
Module Config.
Record t := {
  recordRequests : value;
  recordMatches : value
}.
End Config.

(** [creationRequest], after [compatibility.upcast]. *)
Module CreationRequest.
Record t := {
  protocol : value;
  port : option Z;
  name : value;
  recordRequests : value;
  stubs : option (list value)
}.
End CreationRequest.

(** What [Protocol.createServer] resolves to: the bound port, the metadata,
    and the operations of [server.stubs], [server.resolver] and of the
    objects they hand out.  Each operation is a function on the store; the
    logger argument is left out. *)
Module Server.
Record t := {
  port : Z;
  metadata : value;
  stubs_getResponseFor : request -> value -> heap -> outcome value * heap;
  stubs_addStub : value -> heap -> outcome unit * heap;
  stubs_stubs : heap -> outcome value * heap;
  stubs_resetProxies : heap -> outcome unit * heap;
  resolver_resolve : value -> request -> value -> heap -> outcome unit * heap;
  resolver_resolveProxy : value -> value -> heap -> outcome unit * heap;
  responseConfig_recordMatch : value -> value -> heap -> outcome unit * heap;
  response_recordMatch : value -> heap -> outcome unit * heap;
  close : heap -> outcome unit * heap
}.
End Server.

(** ** Creation and the error handler *)

(** Modelled from the spec: the constructors of [../util/errors], which is not
    part of the sources at hand.  [ResourceConflictError] carries its message,
    [InsufficientAccessError] has none of its own; [Opaque] is an error that
    is passed on as it came. *)
Inductive failure :=
| ResourceConflictError (message : string)
| InsufficientAccessError
| Opaque (error : gmap string value).

(** A [Q.defer()]: it settles once, later calls change nothing. *)
Inductive deferred (A : Type) :=
| Pending
| Resolved (a : A)
| Rejected (e : failure).
Arguments Pending {A}.
Arguments Resolved {A} a.
Arguments Rejected {A} e.

Definition reject {A} (e : failure) (d : deferred A) : deferred A :=
  match d with Pending => Rejected e | _ => d end.

Definition resolve {A} (a : A) (d : deferred A) : deferred A :=
  match d with Pending => Resolved a | _ => d end.

(** [`${port}`] for the port of a creation request: the decimal form, which
    is what JavaScript prints for an integer below 10^21 (a port is below
    2^16). *)
Definition template (port : option Z) : string :=
  match port with
  | Some p => pretty p
  | None => "undefined"
  end.

(** [createErrorHandler(deferred, port)(error)]: the state of [deferred]
    after the handler has run. *)
Definition createErrorHandler {A} (d : deferred A) (port : option Z)
    (error : gmap string value) : deferred A :=
  let errno := default VUndefined (error !! "errno") in
  if strict_eq errno (VStr "EADDRINUSE") then
    reject (ResourceConflictError ("Port " +:+ template port +:+ " is already in use")) d
  else if strict_eq errno (VStr "EACCES") then
    reject InsufficientAccessError d
  else
    reject (Opaque error) d.

(** The object that [create] resolves to; its methods are the operations
    defined below. *)
Record Imposter := {
  Imposter_port : Z;
  Imposter_url : string
}.

(** What can happen while [create] waits: the domain reports an error, or the
    callback of [Protocol.createServer(...).done] runs to its end. *)
Inductive creation_event :=
| DomainError (error : gmap string value)
| ServerCreated (server : Server.t).

Definition imposter_of (server : Server.t) : Imposter :=
  {| Imposter_port := Server.port server;
     Imposter_url := "/imposters/" +:+ pretty (Server.port server) |}.

Definition on_creation_event (creationRequest : CreationRequest.t)
    (d : deferred Imposter) (ev : creation_event) : deferred Imposter :=
  match ev with
  | DomainError error =>
      createErrorHandler d (CreationRequest.port creationRequest) error
  | ServerCreated server => resolve (imposter_of server) d
  end.

(** The callback of [Protocol.createServer(...).done], up to the object it
    resolves [deferred] with: the stubs of the creation request are handed to
    [stubs.addStub], in order. *)
Definition serverCreated (creationRequest : CreationRequest.t) (server : Server.t)
  : M Imposter :=
  match CreationRequest.stubs creationRequest with
  | Some stubs => for_each (fun stub => collab (Server.stubs_addStub server stub)) stubs
  | None => ret tt
  end;;
  ret (imposter_of server).

(** [create]: the promise it returned, after the given events. *)
Definition create (creationRequest : CreationRequest.t)
    (events : list creation_event) : deferred Imposter :=
  fold_left (on_creation_event creationRequest) events Pending.

(** ** The record built by [toJSON] *)

(** The value of a field of [result], an object that [toJSON] creates and
    returns: a value copied in, the [requests] array itself (a reference to
    the live array, not a copy), or an array or object literal made on the
    spot. *)
#[warnings="-register-all"]
Inductive field :=
| FValue (v : value)
| FRequests
| FArray (elems : list value)
| FObject (props : list (string * field)).

Abbreviation record := (gmap string field).

(** The elements of [result.stubs], for [forEach] and [filter]: those of the
    array it refers to.  [undefined] and object literals have no such method;
    the [requests] array is never stored under [stubs]. *)
Definition field_elems (f : option field) : M (list value) :=
  match f with
  | Some (FValue v) => array_elems v
  | Some (FArray l) => ret l
  | _ => throw TypeError
  end.

(** Modelled from the spec: [helpers.clone] of [../util/helpers], which is not
    part of the sources at hand, is a deep copy.  On plain data it rebuilds
    the tree node by node.  The copy shares nothing with the request, and it
    is the closure's own: the log holds it by value, and what the stub store
    and the resolver are handed is the request, not the copy. *)
Fixpoint clone_json (j : json) : json :=
  match j with
  | JNull => JNull
  | JBool b => JBool b
  | JNum z => JNum z
  | JStr s => JStr s
  | JArr items => JArr (map clone_json items)
  | JObj fields => JObj (map (fun kv => (kv.1, clone_json kv.2)) fields)
  end.

Definition clone (r : request) : request :=
  map (fun kv => (kv.1, clone_json kv.2)) r.

(** ** The operations of an imposter *)

Section Imposter.

Variable config : Config.t.
Variable creationRequest : CreationRequest.t.
Variable server : Server.t.

(** [imposterState], the state bag: an object of the store. *)
Variable imposterState : value.

(** [new Date(now).toJSON()], for the clock reading [now] in milliseconds. *)
Variable Date_toJSON : Z -> string.

(** [const recordRequests = config.recordRequests || creationRequest.recordRequests] *)
Definition recordRequests : value :=
  js_or (Config.recordRequests config) (CreationRequest.recordRequests creationRequest).

(** [promise.then(callback)]: the promise is now awaited. *)
Definition await (p : pending) : M nat :=
  fun s =>
    let i := fresh (dom (inflight s)) in
    (Ok i, set_inflight (<[i := p]> (inflight s)) s).

(** [v.recordMatch], to be called: reading it of [undefined] or [null] is a
    [TypeError], and so is calling what is read when that is no function. *)
Definition recordMatch_of (v : value) : M unit :=
  method ← get_prop v "recordMatch";
  match method with
  | VFun _ => ret tt
  | _ => throw TypeError
  end.

(** [responseConfig.recordMatch(response)] *)
Definition responseConfig_recordMatch (responseConfig response : value) : M unit :=
  recordMatch_of responseConfig;;
  modify (fun s => set_calls (calls s ++ [ConfigRecordMatch responseConfig response]) s);;
  collab (Server.responseConfig_recordMatch server responseConfig response).

(** [response.recordMatch()] *)
Definition response_recordMatch (response : value) : M unit :=
  recordMatch_of response;;
  modify (fun s => set_calls (calls s ++ [ResponseRecordMatch response]) s);;
  collab (Server.response_recordMatch server response).

(** [getResponseFor(request)], up to the point where it returns the promise
    [resolver.resolve(...).then(...)].  [now] is what the clock reads. *)
Definition getResponseFor (request : request) (now : Z) : M nat :=
  modify (fun s => set_numberOfRequests (numberOfRequests s + 1) s);;
  (if truthy recordRequests then
     let recordedRequest := clone request in
     let recordedRequest :=
       set_field "timestamp" (JStr (Date_toJSON now)) recordedRequest in
     modify (fun s => set_requests (requests s ++ [recordedRequest]) s)
   else ret tt);;
  responseConfig ← collab (Server.stubs_getResponseFor server request imposterState);
  collab (Server.resolver_resolve server responseConfig request imposterState);;
  await (PResolve responseConfig).

(** The callback given to [then] in [getResponseFor]. *)
Definition getResponseFor_then (responseConfig response : value) : M value :=
  record ← (if truthy (Config.recordMatches config) then
              proxy ← get_prop response "proxy";
              ret (negb (truthy proxy))
            else ret false);
  (if record : bool then
     inner ← get_prop response "response";
     if truthy inner then
       (* Out of process responses wrap the result in an outer response object *)
       responseConfig_recordMatch responseConfig inner
     else
       (* In process resolution *)
       responseConfig_recordMatch responseConfig response
   else ret tt);;
  ret response.

(** [getProxyResponseFor(proxyResponse, proxyResolutionKey)], up to the
    point where it returns its promise. *)
Definition getProxyResponseFor (proxyResponse proxyResolutionKey : value) : M nat :=
  collab (Server.resolver_resolveProxy server proxyResponse proxyResolutionKey);;
  await PResolveProxy.

(** The callback given to [then] in [getProxyResponseFor]. *)
Definition getProxyResponseFor_then (response : value) : M value :=
  (if truthy (Config.recordMatches config) then response_recordMatch response
   else ret tt);;
  ret response.

(** The promise [i] is fulfilled with [response]: its callback runs, once. *)
Definition fulfil (i : nat) (response : value) : M value :=
  s ← get_state;
  match inflight s !! i with
  | Some (PResolve responseConfig) =>
      modify (fun s => set_inflight (delete i (inflight s)) s);;
      getResponseFor_then responseConfig response
  | Some PResolveProxy =>
      modify (fun s => set_inflight (delete i (inflight s)) s);;
      getProxyResponseFor_then response
  | None => ret VUndefined
  end.

(** The promise [i] is rejected: its callback does not run. *)
Definition fail (i : nat) : M unit :=
  modify (fun s => set_inflight (delete i (inflight s)) s).

(** [addDetailsTo(result)]: returns [result] as it is afterwards. *)
Definition addDetailsTo (result : record) : M record :=
  let result :=
    if truthy (CreationRequest.name creationRequest)
    then <["name" := FValue (CreationRequest.name creationRequest)]> result
    else result in
  let result :=
    <["recordRequests" :=
        FValue (VBool (truthy (CreationRequest.recordRequests creationRequest)))]> result in
  entries ← object_entries (Server.metadata server);
  let result :=
    fold_left (fun result kv => <[kv.1 := FValue kv.2]> result) entries result in
  let result := <["requests" := FRequests]> result in
  stubs ← collab (Server.stubs_stubs server);
  ret (<["stubs" := FValue stubs]> result).

(** What [removeNonEssentialInformationFrom] does to one response. *)
Definition strip_response (response : value) : M unit :=
  body ← get_prop response "is";
  if defined body then
    time ← get_prop body "_proxyResponseTime";
    if defined time then delete_prop body "_proxyResponseTime" else ret tt
  else ret tt.

(** What [removeNonEssentialInformationFrom] does to one stub. *)
Definition strip_stub (stub : value) : M unit :=
  matches ← get_prop stub "matches";
  (if truthy matches then delete_prop stub "matches" else ret tt);;
  responses ← get_prop stub "responses";
  elems ← array_elems responses;
  for_each strip_response elems.

(** [removeNonEssentialInformationFrom(result)] *)
Definition removeNonEssentialInformationFrom (result : record) : M record :=
  stubs ← field_elems (result !! "stubs");
  for_each strip_stub stubs;;
  ret (delete "_links" (delete "requests" (delete "numberOfRequests" result))).

(** [response => !response.hasOwnProperty('proxy')] *)
Definition not_proxy (response : value) : M bool :=
  b ← has_own_property response "proxy";
  ret (negb b).

(** [stub.responses = stub.responses.filter(...)] *)
Definition filter_responses (stub : value) : M unit :=
  responses ← get_prop stub "responses";
  elems ← array_elems responses;
  kept ← filter_elems not_proxy elems;
  filtered ← alloc (CArr kept);
  set_prop stub "responses" filtered.

(** [stub => stub.responses.length > 0] *)
Definition has_responses (stub : value) : M bool :=
  responses ← get_prop stub "responses";
  length_positive responses.

(** [removeProxiesFrom(result)] *)
Definition removeProxiesFrom (result : record) : M record :=
  stubs ← field_elems (result !! "stubs");
  for_each filter_responses stubs;;
  stubs ← field_elems (result !! "stubs");
  kept ← filter_elems has_responses stubs;
  ret (<["stubs" := FArray kept]> result).

(** [options.k], after [options = options || {}]. *)
Definition option_of (options : option (gmap string value)) (k : string) : value :=
  default VUndefined (default ∅ options !! k).

(** [toJSON(options)]; [None] stands for a call without options. *)
Definition toJSON (options : option (gmap string value)) : M record :=
  s ← get_state;
  let result : record :=
    <["numberOfRequests" := FValue (VNum (Z.of_nat (numberOfRequests s)))]>
      (<["port" := FValue (VNum (Server.port server))]>
         {["protocol" := FValue (CreationRequest.protocol creationRequest)]}) in
  result ← (if negb (truthy (option_of options "list"))
            then addDetailsTo result else ret result);
  let result :=
    <["_links" :=
        FObject [("self",
                  FObject [("href",
                            FValue (VStr ("/imposters/" +:+ pretty (Server.port server))))])]]>
      result in
  result ← (if truthy (option_of options "replayable")
            then removeNonEssentialInformationFrom result else ret result);
  result ← (if truthy (option_of options "removeProxies")
            then removeProxiesFrom result else ret result);
  ret result.

(** [stop()], up to the call of [server.close]. *)
Definition stop : M unit := collab (Server.close server).

(** [addStub] and [resetProxies] are the stub store's own. *)
Definition addStub (stub : value) : M unit :=
  collab (Server.stubs_addStub server stub).

Definition resetProxies : M unit := collab (Server.stubs_resetProxies server).

(** ** The life of an imposter, event by event *)

Inductive event :=
| Request (request : request) (now : Z)
| Fulfilled (i : nat) (response : value)
| Failed (i : nat)
| ProxyResponse (proxyResponse proxyResolutionKey : value)
| AddStub (stub : value)
| ToJSON (options : option (gmap string value))
| ResetProxies
| Stop
| Elsewhere (f : heap -> heap).

(** The state after one event.  An operation that throws leaves the state
    as it was when it threw.  [Elsewhere] is anything the collaborators do
    to the store between two calls. *)
Definition step (s : state) (ev : event) : state :=
  match ev with
  | Request request now => (getResponseFor request now s).2
  | Fulfilled i response => (fulfil i response s).2
  | Failed i => (fail i s).2
  | ProxyResponse proxyResponse key => (getProxyResponseFor proxyResponse key s).2
  | AddStub stub => (addStub stub s).2
  | ToJSON options => (toJSON options s).2
  | ResetProxies => (resetProxies s).2
  | Stop => (stop s).2
  | Elsewhere f => set_store (f (store s)) s
  end.

Definition run (s : state) (events : list event) : state :=
  fold_left step events s.

(** The state in which [create] resolves: nothing counted, nothing
    recorded, nothing awaited; [h] is the store as [serverCreated] left it. *)
Definition listening (h : heap) : state := State 0 [] h ∅ [].

End Imposter.

(** * A concrete imposter

    A tcp imposter on port 6000, started with [--mock] (requests are recorded
    whatever the creation request says) and with match recording.  Its stub
    store keeps two stubs in the store and hands out the very array it keeps
    when asked for [stubs()]. *)
Module Demo.

Definition config : Config.t :=
  {| Config.recordRequests := VBool true; Config.recordMatches := VBool true |}.

Definition creationRequest : CreationRequest.t :=
  {| CreationRequest.protocol := VStr "tcp";
     CreationRequest.port := Some 6000%Z;
     CreationRequest.name := VUndefined;
     CreationRequest.recordRequests := VUndefined;
     CreationRequest.stubs := None |}.

(** The stub list is object 0.  Stub 1 has a match history, a literal
    response whose body carries [_proxyResponseTime], and a proxy response;
    stub 4 has a proxy response only.  Object 11 is the state bag, 13 the
    metadata, 14 a response configuration, 15 a response and 16 a response
    that wraps it; 17 is the metadata of another protocol and 18 a response
    as the resolver of proxies returns it, with a [recordMatch] of its own. *)
Definition stubs_store : heap :=
  list_to_map
    [ (0, CArr [VRef 1; VRef 4]);
      (1, CObj (list_to_map [("matches", VRef 7); ("responses", VRef 2)]));
      (2, CArr [VRef 3; VRef 8]);
      (3, CObj {["is" := VRef 9]});
      (4, CObj {["responses" := VRef 5]});
      (5, CArr [VRef 6]);
      (6, CObj {["proxy" := VRef 10]});
      (7, CArr [VRef 12]);
      (8, CObj {["proxy" := VRef 10]});
      (9, CObj (list_to_map [("data", VStr "hello"); ("_proxyResponseTime", VNum 12)]));
      (10, CObj {["to" := VStr "tcp://origin:7000"]});
      (11, CObj ∅);
      (12, CObj {["timestamp" := VStr "0"]});
      (13, CObj {["mode" := VStr "text"]});
      (14, CObj {["recordMatch" := VFun "recordMatch"]});
      (15, CObj {["data" := VStr "ok"]});
      (16, CObj {["response" := VRef 15]});
      (17, CObj {["recordRequests" := VBool true]});
      (18, CObj (list_to_map [("data", VStr "ok"); ("recordMatch", VFun "recordMatch")])) ].

(** Matching throws on a request that has a field [fail]. *)
Definition server : Server.t :=
  {| Server.port := 6000;
     Server.metadata := VRef 13;
     Server.stubs_getResponseFor := fun request _ h =>
       match get_field "fail" request with
       | Some _ => (Throw (Thrown (VStr "no match")), h)
       | None => (Ok (VRef 14), h)
       end;
     Server.stubs_addStub := fun stub h =>
       match h !! 0 with
       | Some (CArr l) => (Ok tt, <[0 := CArr (l ++ [stub])]> h)
       | _ => (Throw TypeError, h)
       end;
     Server.stubs_stubs := fun h => (Ok (VRef 0), h);
     Server.stubs_resetProxies := fun h => (Ok tt, h);
     Server.resolver_resolve := fun _ _ _ h => (Ok tt, h);
     Server.resolver_resolveProxy := fun _ _ h => (Ok tt, h);
     Server.responseConfig_recordMatch := fun _ _ h => (Ok tt, h);
     Server.response_recordMatch := fun _ h => (Ok tt, h);
     Server.close := fun h => (Ok tt, h) |}.

(** The same server, of a protocol whose metadata has a property
    [recordRequests]. *)
Definition shadowing_server : Server.t :=
  {| Server.port := Server.port server;
     Server.metadata := VRef 17;
     Server.stubs_getResponseFor := Server.stubs_getResponseFor server;
     Server.stubs_addStub := Server.stubs_addStub server;
     Server.stubs_stubs := Server.stubs_stubs server;
     Server.stubs_resetProxies := Server.stubs_resetProxies server;
     Server.resolver_resolve := Server.resolver_resolve server;
     Server.resolver_resolveProxy := Server.resolver_resolveProxy server;
     Server.responseConfig_recordMatch := Server.responseConfig_recordMatch server;
     Server.response_recordMatch := Server.response_recordMatch server;
     Server.close := Server.close server |}.

(** A copy of [v] made of objects of its own, [fuel] levels deep. *)
Fixpoint copy (fuel : nat) (v : value) (h : heap) : value * heap :=
  match fuel, v with
  | S fuel, VRef l =>
      let copy_all :=
        fix copy_all (vs : list value) (h : heap) : list value * heap :=
          match vs with
          | [] => ([], h)
          | x :: vs =>
              let '(x', h1) := copy fuel x h in
              let '(vs', h2) := copy_all vs h1 in
              (x' :: vs', h2)
          end in
      match h !! l with
      | Some (CArr a) =>
          let '(a', h1) := copy_all a h in
          let l' := fresh (dom h1) in
          (VRef l', <[l' := CArr a']> h1)
      | Some (CObj m) =>
          let entries := map_to_list m in
          let '(vs', h1) := copy_all entries.*2 h in
          let l' := fresh (dom h1) in
          (VRef l', <[l' := CObj (list_to_map (zip entries.*1 vs'))]> h1)
      | None => (v, h)
      end
  | _, _ => (v, h)
  end.

(** The same server, with a stub store whose [stubs()] hands out a copy of
    its list of stubs, deep enough for the stubs of the demo. *)
Definition snapshotting_server : Server.t :=
  {| Server.port := Server.port server;
     Server.metadata := Server.metadata server;
     Server.stubs_getResponseFor := Server.stubs_getResponseFor server;
     Server.stubs_addStub := Server.stubs_addStub server;
     Server.stubs_stubs := fun h => let '(v, h') := copy 6 (VRef 0) h in (Ok v, h');
     Server.stubs_resetProxies := Server.stubs_resetProxies server;
     Server.resolver_resolve := Server.resolver_resolve server;
     Server.resolver_resolveProxy := Server.resolver_resolveProxy server;
     Server.responseConfig_recordMatch := Server.responseConfig_recordMatch server;
     Server.response_recordMatch := Server.response_recordMatch server;
     Server.close := Server.close server |}.

Definition imposterState : value := VRef 11.

(** Stands in for the ISO rendering of a date. *)
Definition Date_toJSON (now : Z) : string := pretty now.

Definition listening : state := listening stubs_store.

Definition run := run config creationRequest server imposterState Date_toJSON.

Definition toJSON := toJSON creationRequest server.

(** Two requests, the second of which fails to match, and a look at the
    imposter in between. *)
Definition traffic : list event :=
  [ Request [("data", JStr "ping")] 1000;
    ToJSON None;
    Request [("fail", JBool true)] 1001 ].

End Demo.

(** * The integrity test of the documentation

    [functionalTest/html/docsIntegrityTest.js] registers one test per page of
    the documentation.  Which pages depends on the platform and on whether
    the tcp protocol runs in process. *)
Module Docs.

(** [require('os').platform().indexOf('win') === 0] *)
Definition isWindows (platform : string) : bool :=
  match String.index 0 "win" platform with
  | Some 0 => true
  | _ => false
  end.

(** The pages of the first [forEach]. *)
Definition pages : list string :=
  [ "/docs/api/overview";
    "/docs/api/mocks";
    "/docs/api/proxies";
    "/docs/api/injection";
    "/docs/api/xpath";
    "/docs/api/json";
    "/docs/protocols/https";
    "/docs/protocols/http";
    "/docs/api/jsonpath" ].

(** The pages of the second [forEach], whose examples talk to a tcp
    imposter. *)
Definition tcp_pages : list string :=
  [ "/docs/gettingStarted";
    "/docs/api/predicates";
    "/docs/api/behaviors";
    "/docs/api/stubs";
    "/docs/protocols/tcp" ].

(** The name of the test that [validateDocs(page)] registers. *)
Definition test_name (page : string) : string := page +:+ " should be up-to-date".

(** The pages handed to [validateDocs] by the body of [describe('docs', ...)],
    in order. *)
Definition validated (tcpIsInProcess : bool) (platform : string) : list string :=
  pages ++ (if tcpIsInProcess && negb (isWindows platform) then tcp_pages else []).

End Docs.

(** * Vocabulary of the statements *)

(** The requests among the events, in order, each with its clock reading.
    The events are not tied to one imposter: they carry no reference to the
    section's variables. *)
Definition requests_of (events : list event) : list (request * Z) :=
  omap (fun ev => match ev with
                  | Request request now => Some (request, now)
                  | _ => None
                  end) events.

(** The entry recorded for [request] when the clock reads [now]. *)
Definition stamped (Date_toJSON : Z -> string) (rn : request * Z) : request :=
  set_field "timestamp" (JStr (Date_toJSON rn.2)) rn.1.

(** [m] changes neither [numberOfRequests] nor [requests]. *)
Definition keeps_log {A} (m : M A) : Prop :=
  forall s, numberOfRequests (m s).2 = numberOfRequests s
            /\ requests (m s).2 = requests s.

(** [m] changes nothing but the store. *)
Definition store_only {A} (m : M A) : Prop :=
  forall s, (m s).2 = set_store (store (m s).2) s.

(** [m] reads the state and leaves it as it is. *)
Definition read_only {A} (m : M A) : Prop := forall s, (m s).2 = s.

(** The recorded-request log is no longer than the request counter. *)
Definition log_within_counter (s : state) : Prop :=
  length (requests s) <= numberOfRequests s.

(** What [v.k] reads in the store [h]; [None] where reading throws. *)
Definition prop (h : heap) (v : value) (k : string) : option value :=
  match v with
  | VUndefined | VNull => None
  | VRef l =>
      match h !! l with
      | Some (CObj m) => Some (default VUndefined (m !! k))
      | Some (CArr _) => Some VUndefined
      | None => None
      end
  | _ => Some VUndefined
  end.

(** The elements of the array [v] in the store [h]. *)
Definition elems (h : heap) (v : value) : option (list value) :=
  match v with
  | VRef l => match h !! l with Some (CArr vs) => Some vs | _ => None end
  | _ => None
  end.

(** [v] is an object of [h] with a property [proxy] of its own. *)
Definition carries_proxy (h : heap) (v : value) : bool :=
  match v with
  | VRef l =>
      match h !! l with
      | Some (CObj m) => bool_decide (is_Some (m !! "proxy"))
      | _ => false
      end
  | _ => false
  end.

(** The names under which [addDetailsTo] copies the metadata in state [s]. *)
Definition metadata_keys (server : Server.t) (s : state) : list string :=
  match object_entries (Server.metadata server) s with
  | (Ok entries, _) => entries.*1
  | _ => []
  end.

(** The options reduced to their [list] member: a serialization without the
    [replayable] and [removeProxies] transforms. *)
Definition just_list (options : option (gmap string value)) : option (gmap string value) :=
  Some {["list" := default VUndefined (default ∅ options !! "list")]}.

(** The three fields that [toJSON] starts from, when the counter is [n]. *)
Definition base_fields (creationRequest : CreationRequest.t) (server : Server.t)
    (n : nat) : record :=
  <["numberOfRequests" := FValue (VNum (Z.of_nat n))]>
    (<["port" := FValue (VNum (Server.port server))]>
       {["protocol" := FValue (CreationRequest.protocol creationRequest)]}).

(** [{ self: { href: '/imposters/' + server.port } }] *)
Definition self_link (server : Server.t) : field :=
  FObject [("self",
            FObject [("href",
                      FValue (VStr ("/imposters/" +:+ pretty (Server.port server))))])].

(** What the transforms of [toJSON] may make of an object: [m0] in the store
    [h0] has become [m] in the store [h].  Every property but [matches],
    [_proxyResponseTime] and [responses] is as it was; the first two are as
    they were or gone; [responses] is as it was or refers to an array, and
    if it referred to the array [rs0] it now refers to an array that is
    [rs0] or what is left of [rs0] without the responses that carry
    [proxy]. *)
Definition object_evolves (h0 h : heap) (m0 m : gmap string value) : Prop :=
  (forall k, k <> "matches" -> k <> "_proxyResponseTime" -> k <> "responses" ->
             m !! k = m0 !! k)
  /\ (m !! "matches" = m0 !! "matches" \/ m !! "matches" = None)
  /\ (m !! "_proxyResponseTime" = m0 !! "_proxyResponseTime"
      \/ m !! "_proxyResponseTime" = None)
  /\ (m !! "responses" = m0 !! "responses"
      \/ exists a rs, m !! "responses" = Some (VRef a) /\ h !! a = Some (CArr rs))
  /\ (forall a rs0,
        m0 !! "responses" = Some (VRef a) -> h0 !! a = Some (CArr rs0) ->
        exists a' rs,
          m !! "responses" = Some (VRef a') /\ h !! a' = Some (CArr rs)
          /\ (rs = rs0 \/ rs = filter (fun v => carries_proxy h0 v = false) rs0)).

(** What the transforms of [toJSON] may make of the store: arrays stay as
    they are, new objects are arrays, and objects evolve. *)
Record evolves (h0 h : heap) : Prop := {
  evolves_array : forall l a, h0 !! l = Some (CArr a) -> h !! l = Some (CArr a);
  evolves_fresh : forall l, h0 !! l = None ->
                            h !! l = None \/ exists a, h !! l = Some (CArr a);
  evolves_object : forall l m0, h0 !! l = Some (CObj m0) ->
                                exists m, h !! l = Some (CObj m)
                                          /\ object_evolves h0 h m0 m
}.

(** [m] changes nothing but the store, and the store only by evolving. *)
Definition evolving {A} (m : M A) : Prop :=
  forall s, evolves (store s) (store (m s).2).

(** The last two stages of [toJSON], on the record [result] built so far. *)
Definition transforms (options : option (gmap string value)) (result : record)
  : M record :=
  result ← (if truthy (option_of options "replayable")
            then removeNonEssentialInformationFrom result else ret result);
  (if truthy (option_of options "removeProxies")
   then removeProxiesFrom result else ret result).

(** The response carries no [_proxyResponseTime] in the body of its [is]: it
    has no [is], or reading [is._proxyResponseTime] gives [undefined]. *)
Definition response_stripped (h : heap) (response : value) : Prop :=
  exists body,
    prop h response "is" = Some body
    /\ (defined body = true -> prop h body "_proxyResponseTime" = Some VUndefined).

(** The stub carries no match history, and none of its responses carries a
    [_proxyResponseTime]: reading [matches] gives nothing truthy, and
    [responses] is an array of stripped responses. *)
Definition stub_stripped (h : heap) (stub : value) : Prop :=
  exists matches responses rs,
    prop h stub "matches" = Some matches /\ truthy matches = false
    /\ prop h stub "responses" = Some responses
    /\ elems h responses = Some rs
    /\ Forall (response_stripped h) rs.

(** The responses of [stub] in the store [h]: the elements of the array
    under [responses]. *)
Definition responses_of (h : heap) (stub : value) : option (list value) :=
  match prop h stub "responses" with
  | Some responses => elems h responses
  | None => None
  end.

(** [stub] has at least one response in [h]. *)
Definition has_responses_in (h : heap) (stub : value) : bool :=
  match responses_of h stub with
  | Some (_ :: _) => true
  | _ => false
  end.

(** None of the responses of [stub] carries [proxy]. *)
Definition stub_filtered (h : heap) (stub : value) : Prop :=
  exists rs,
    responses_of h stub = Some rs
    /\ Forall (fun response => carries_proxy h response = false) rs.

(** The objects that the transforms of [toJSON] may write to, when [stubs()]
    returned the stubs [all] in the store [h0]: the stubs themselves, and the
    objects under [is] in their responses. *)
Definition touched (h0 : heap) (all : list value) (l : nat) : Prop :=
  VRef l ∈ all
  \/ exists stub rs response,
       stub ∈ all /\ responses_of h0 stub = Some rs /\ response ∈ rs
       /\ prop h0 response "is" = Some (VRef l).

(** Every object of [h0] is in [h] as it was, unless [F] holds of it. *)
Definition kept_or (F : nat -> Prop) (h0 h : heap) : Prop :=
  forall l c, h0 !! l = Some c -> h !! l = Some c \/ F l.

(** [h] is [h0] with some [matches] and [_proxyResponseTime] removed, and
    nothing else changed or added. *)
Definition thins (h0 h : heap) : Prop :=
  forall l,
    match h0 !! l with
    | Some (CArr a) => h !! l = Some (CArr a)
    | Some (CObj m0) =>
        exists m, h !! l = Some (CObj m)
                  /\ forall k, k <> "matches" -> k <> "_proxyResponseTime" ->
                               m !! k = m0 !! k
    | None => h !! l = None
    end.

(** [h] is [h0] where some objects have got another [responses], and
    nothing else of [h0] has changed. *)
Definition rewires (h0 h : heap) : Prop :=
  forall l,
    match h0 !! l with
    | Some (CArr a) => h !! l = Some (CArr a)
    | Some (CObj m0) =>
        exists m, h !! l = Some (CObj m)
                  /\ forall k, k <> "responses" -> m !! k = m0 !! k
    | None => True
    end.

(** Whatever [m] throws is a [TypeError]. *)
Definition type_errors_only {A} (m : M A) : Prop :=
  forall s e s', m s = (Throw e, s') -> e = TypeError.

(** The values that an object or an array holds. *)
Definition members (c : cell) : list value :=
  match c with
  | CObj m => (map_to_list m).*2
  | CArr a => a
  end.

(** The object that [v] refers to, if it refers to one. *)
Definition ref_of (v : value) : option nat :=
  match v with VRef l => Some l | _ => None end.

(** [l] can be reached from [v] in the store [h]: [v] refers to it, or to an
    object or array from one of whose members it can be reached. *)
Inductive reaches (h : heap) : value -> nat -> Prop :=
| reaches_here l : reaches h (VRef l) l
| reaches_member l c v l' :
    h !! l = Some c -> v ∈ members c -> reaches h v l' -> reaches h (VRef l) l'.

(** [stubs()], called on the store [h], has answered with a snapshot: it
    has left every object of [h] as it was, and if it has returned a value,
    that is a copy all of its own, from which no object of [h] can be
    reached. *)
Definition answers_with_snapshot (h : heap) (answer : outcome value * heap) : Prop :=
  (forall l c, h !! l = Some c -> answer.2 !! l = Some c)
  /\ forall v l, answer.1 = Ok v -> reaches answer.2 v l -> h !! l = None.


(** The event settles the promise [i]. *)
Definition settles (i : nat) (ev : event) : Prop :=
  match ev with
  | Fulfilled j _ | Failed j => j = i
  | _ => False
  end.

(** * Verification *)

(** ** Computations that leave the closure's variables alone *)

Lemma set_store_store s : set_store (store s) s = s.
Proof. by destruct s. Qed.

Lemma set_store_twice h h' s : set_store h (set_store h' s) = set_store h s.
Proof. done. Qed.

(** One step of a sequence. *)
Lemma bind_run {A B} (m : M A) (k : A -> M B) s :
  (m ≫= k) s = match m s with
               | (Ok a, s1) => k a s1
               | (Throw e, s1) => (Throw e, s1)
               end.
Proof. done. Qed.

Lemma store_only_keeps_log {A} (m : M A) : store_only m -> keeps_log m.
Proof. intros H s. rewrite (H s). done. Qed.

Lemma store_only_ret {A} (a : A) : store_only (ret a).
Proof. intros s. simpl. by rewrite set_store_store. Qed.

Lemma store_only_mret {A} (a : A) : store_only (mret a : M A).
Proof. apply store_only_ret. Qed.

Lemma store_only_throw {A} e : store_only (throw e : M A).
Proof. intros s. simpl. by rewrite set_store_store. Qed.

Lemma store_only_bind {A B} (m : M A) (k : A -> M B) :
  store_only m -> (forall a, store_only (k a)) -> store_only (m ≫= k).
Proof.
  intros Hm Hk s. unfold mbind, M_bind, bind.
  specialize (Hm s). destruct (m s) as [[a|e] s1]; simpl in *.
  - rewrite (Hk a s1). rewrite Hm at 2. done.
  - done.
Qed.

Lemma store_only_get_state : store_only get_state.
Proof. intros s. simpl. by rewrite set_store_store. Qed.

Lemma store_only_collab {A} (f : heap -> outcome A * heap) : store_only (collab f).
Proof. intros s. unfold collab. by destruct (f (store s)). Qed.

Ltac store_op :=
  let s := fresh "s" in
  intros s; cbv beta delta [get_prop has_own_property set_prop delete_prop
                            array_elems length_positive object_entries alloc];
  repeat case_match; simpl; try done; by rewrite set_store_store.

Lemma store_only_get_prop v k : store_only (get_prop v k).
Proof. store_op. Qed.

Lemma store_only_has_own_property v k : store_only (has_own_property v k).
Proof. store_op. Qed.

Lemma store_only_set_prop v k x : store_only (set_prop v k x).
Proof. store_op. Qed.

Lemma store_only_delete_prop v k : store_only (delete_prop v k).
Proof. store_op. Qed.

Lemma store_only_array_elems v : store_only (array_elems v).
Proof. store_op. Qed.

Lemma store_only_length_positive v : store_only (length_positive v).
Proof. store_op. Qed.

Lemma store_only_object_entries v : store_only (object_entries v).
Proof. store_op. Qed.

Lemma store_only_alloc c : store_only (alloc c).
Proof. store_op. Qed.

Lemma store_only_for_each {A} (f : A -> M unit) l :
  (forall x, store_only (f x)) -> store_only (for_each f l).
Proof.
  intros Hf. induction l as [|x l IH]; simpl.
  - apply store_only_ret.
  - apply store_only_bind; auto.
Qed.

Lemma store_only_filter_elems p l :
  (forall x, store_only (p x)) -> store_only (filter_elems p l).
Proof.
  intros Hp. induction l as [|x l IH]; simpl.
  - apply store_only_ret.
  - apply store_only_bind; [auto|]. intros b.
    apply store_only_bind; [auto|]. intros rest. apply store_only_mret.
Qed.

Lemma store_only_field_elems f : store_only (field_elems f).
Proof.
  destruct f as [[]|]; simpl;
    auto using store_only_array_elems, store_only_ret, store_only_throw.
Qed.

Lemma store_only_if {A} (b : bool) (m1 m2 : M A) :
  store_only m1 -> store_only m2 -> store_only (if b then m1 else m2).
Proof. by destruct b. Qed.

Create HintDb store_only.
#[export] Hint Resolve store_only_ret store_only_mret store_only_throw
  store_only_get_state store_only_collab store_only_get_prop
  store_only_has_own_property store_only_set_prop store_only_delete_prop
  store_only_array_elems store_only_length_positive store_only_object_entries
  store_only_alloc store_only_field_elems : store_only.

(** Goes through a computation bind by bind. *)
Ltac store_only_tac :=
  repeat first
    [ progress (eauto with store_only)
    | apply store_only_bind; [|intros ?]
    | apply store_only_if
    | apply store_only_for_each; intros ?
    | apply store_only_filter_elems; intros ? ].

Section Accounting.

Variable config : Config.t.
Variable creationRequest : CreationRequest.t.
Variable server : Server.t.
Variable imposterState : value.
Variable Date_toJSON : Z -> string.

#[local] Abbreviation getResponseFor_ :=
  (getResponseFor config creationRequest server imposterState Date_toJSON).
#[local] Abbreviation step_ := (step config creationRequest server imposterState Date_toJSON).
#[local] Abbreviation run_ := (run config creationRequest server imposterState Date_toJSON).
#[local] Abbreviation toJSON_ := (toJSON creationRequest server).

Lemma store_only_strip_response response : store_only (strip_response response).
Proof. unfold strip_response. store_only_tac. Qed.

Lemma store_only_strip_stub stub : store_only (strip_stub stub).
Proof.
  pose proof store_only_strip_response. unfold strip_stub. store_only_tac.
Qed.

Lemma store_only_filter_responses stub : store_only (filter_responses stub).
Proof. unfold filter_responses, not_proxy. store_only_tac. Qed.

Lemma store_only_addDetailsTo result :
  store_only (addDetailsTo creationRequest server result).
Proof. unfold addDetailsTo. store_only_tac. Qed.

Lemma store_only_removeNonEssentialInformationFrom result :
  store_only (removeNonEssentialInformationFrom result).
Proof.
  pose proof store_only_strip_stub.
  unfold removeNonEssentialInformationFrom. store_only_tac.
Qed.

Lemma store_only_removeProxiesFrom result : store_only (removeProxiesFrom result).
Proof.
  pose proof store_only_filter_responses.
  unfold removeProxiesFrom, has_responses. store_only_tac.
Qed.

Lemma store_only_toJSON options : store_only (toJSON_ options).
Proof.
  pose proof store_only_addDetailsTo.
  pose proof store_only_removeNonEssentialInformationFrom.
  pose proof store_only_removeProxiesFrom.
  unfold toJSON. store_only_tac.
Qed.

(** What [getResponseFor] does to the closure's variables, whether it
    returns its promise or throws. *)
Lemma getResponseFor_log request now s :
  let s' := (getResponseFor_ request now s).2 in
  numberOfRequests s' = numberOfRequests s + 1
  /\ requests s' =
       if truthy (recordRequests config creationRequest)
       then (requests s ++ [set_field "timestamp" (JStr (Date_toJSON now)) (clone request)])%list
       else requests s.
Proof.
  unfold getResponseFor, mbind, M_bind, bind, modify, collab, await, ret.
  simpl. destruct (truthy (recordRequests _ _)); simpl;
    repeat (case_match; simplify_eq/=); done.
Qed.

Lemma keeps_log_fulfil i response : keeps_log (fulfil config server i response).
Proof.
  intros s.
  unfold fulfil, getResponseFor_then, getProxyResponseFor_then,
    responseConfig_recordMatch, response_recordMatch, recordMatch_of, get_prop,
    throw, mbind, M_bind, bind, modify, collab, get_state, ret, mret, M_ret.
  simpl. repeat (case_match; simplify_eq/=); done.
Qed.

(** Every event but a request keeps the closure's variables. *)
Lemma step_log s ev :
  match ev with
  | Request request now =>
      numberOfRequests (step_ s ev) = numberOfRequests s + 1
      /\ requests (step_ s ev) =
           if truthy (recordRequests config creationRequest)
           then (requests s ++ [set_field "timestamp" (JStr (Date_toJSON now)) (clone request)])%list
           else requests s
  | _ => numberOfRequests (step_ s ev) = numberOfRequests s
         /\ requests (step_ s ev) = requests s
  end.
Proof.
  destruct ev; simpl.
  - apply getResponseFor_log.
  - apply keeps_log_fulfil.
  - done.
  - unfold getProxyResponseFor, mbind, M_bind, bind, collab, await.
    repeat (case_match; simplify_eq/=); done.
  - apply store_only_keeps_log, store_only_collab.
  - apply store_only_keeps_log, store_only_toJSON.
  - apply store_only_keeps_log, store_only_collab.
  - apply store_only_keeps_log, store_only_collab.
  - done.
Qed.

(** The closure's variables after a run of events. *)
Lemma run_log s events :
  numberOfRequests (run_ s events) = numberOfRequests s + length (requests_of events)
  /\ requests (run_ s events) =
       (requests s ++
          if truthy (recordRequests config creationRequest)
          then (fun rn => stamped Date_toJSON (clone rn.1, rn.2)) <$> requests_of events
          else [])%list.
Proof.
  revert s. induction events as [|ev events IH]; intros s; simpl.
  - split; [lia|]. destruct (truthy _); by rewrite app_nil_r.
  - destruct (IH (step_ s ev)) as [IH1 IH2].
    change (run_ s (ev :: events)) with (run_ (step_ s ev) events).
    rewrite IH1, IH2. pose proof (step_log s ev) as Hs.
    destruct ev; destruct Hs as [-> ->]; try done.
    split; [simpl; lia|]. simpl. destruct (truthy _); [|done].
    by rewrite <- app_assoc.
Qed.

(** C1: after any events on an imposter that has just begun to listen, the
    request counter equals the number of calls to [getResponseFor] among
    them.  A call counts whether it returns its promise or throws while
    matching, and whatever becomes of the promise; no other operation moves
    the counter. *)
Theorem request_counter_counts_requests (h : heap) (events : list event) :
  numberOfRequests (run_ (listening h) events) = length (requests_of events)
  /\ forall s request now,
       numberOfRequests (getResponseFor_ request now s).2 = numberOfRequests s + 1.
Proof.
  split.
  - by destruct (run_log (listening h) events) as [-> _].
  - intros s request now. apply getResponseFor_log.
Qed.

(** The copy that [clone] makes is, node for node, the tree it was given. *)
Fixpoint clone_json_id (j : json) : clone_json j = j.
Proof.
  destruct j as [| | | |items|fields]; simpl; try done.
  - f_equal. induction items as [|x l IH]; simpl; [done|].
    by rewrite clone_json_id, IH.
  - f_equal. induction fields as [|[k x] l IH]; simpl; [done|].
    by rewrite clone_json_id, IH.
Qed.

Lemma clone_id (r : request) : clone r = r.
Proof.
  unfold clone. induction r as [|[k x] l IH]; simpl; [done|].
  by rewrite clone_json_id, IH.
Qed.



Lemma truthy_js_or a b : truthy (js_or a b) = truthy a || truthy b.
Proof. unfold js_or. by destruct (truthy a) eqn:E; simpl. Qed.


(** C9: the log is never longer than the counter.  This holds when the
    imposter begins to listen, every event keeps it (a call to any of
    [getResponseFor], [getProxyResponseFor], [addStub], [toJSON],
    [resetProxies], [stop], and the settling of a promise), and so it holds
    after any events. *)
Theorem log_never_exceeds_counter :
  (forall h, log_within_counter (listening h))
  /\ (forall s ev, log_within_counter s -> log_within_counter (step_ s ev))
  /\ (forall h events, log_within_counter (run_ (listening h) events)).
Proof.
  assert (forall s ev, log_within_counter s -> log_within_counter (step_ s ev)) as Hstep.
  { intros s ev. unfold log_within_counter. pose proof (step_log s ev) as Hs.
    destruct ev; destruct Hs as [-> ->]; try done.
    destruct (truthy _); rewrite ?length_app; simpl; lia. }
  assert (forall h, log_within_counter (listening h)) as Hinit.
  { intros h. unfold log_within_counter. simpl. lia. }
  split; [|split]; [done|done|].
  intros h events. generalize (listening h) (Hinit h). clear Hinit.
  induction events as [|ev events IH]; intros s Hs; [done|].
  apply (IH (step_ s ev)), Hstep, Hs.
Qed.

End Accounting.


(** ** Creation *)

Lemma rejected_stays creationRequest e events :
  fold_left (on_creation_event creationRequest) events (Rejected e) = Rejected e.
Proof.
  induction events as [|ev events IH]; simpl; [done|].
  destruct ev; simpl; [|done]. unfold createErrorHandler.
  repeat case_match; simpl; done.
Qed.

(** C3: when the first thing to happen during [create] is an error raised by
    the bind, the promise of [create] is rejected: with a
    [ResourceConflictError] whose message names the requested port if the
    error's [errno] is [EADDRINUSE], with an [InsufficientAccessError] if it
    is [EACCES], with the error itself otherwise.  Whatever happens later,
    the promise is never resolved with an imposter. *)
Theorem bind_error_rejects (creationRequest : CreationRequest.t)
    (error : gmap string value) (later : list creation_event) :
  let errno := default VUndefined (error !! "errno") in
  let promise := create creationRequest (DomainError error :: later) in
  (errno = VStr "EADDRINUSE" ->
     promise = Rejected (ResourceConflictError
                 ("Port " +:+ template (CreationRequest.port creationRequest)
                    +:+ " is already in use")))
  /\ (errno = VStr "EACCES" -> promise = Rejected InsufficientAccessError)
  /\ (errno <> VStr "EADDRINUSE" -> errno <> VStr "EACCES" ->
        promise = Rejected (Opaque error))
  /\ (forall imposter, promise <> Resolved imposter)
  /\ (forall p : Z, template (Some p) = pretty p).
Proof.
  intros errno promise. subst promise. unfold create. simpl.
  unfold createErrorHandler, strict_eq. fold errno.
  repeat split.
  - intros ->. simpl. apply rejected_stays.
  - intros ->. simpl. apply rejected_stays.
  - intros H1 H2. rewrite !bool_decide_eq_false_2 by done. apply rejected_stays.
  - intros imposter. repeat case_bool_decide; simpl; rewrite rejected_stays; done.
Qed.

(** ** Match recording *)

Lemma get_prop_prop v k s x : prop (store s) v k = Some x -> get_prop v k s = (Ok x, s).
Proof.
  unfold prop, get_prop. intros H. repeat (case_match; simplify_eq/=); done.
Qed.

Lemma get_prop_none v k s : prop (store s) v k = None -> get_prop v k s = (Throw TypeError, s).
Proof.
  unfold prop, get_prop. intros H. repeat (case_match; simplify_eq/=); done.
Qed.

Lemma prop_object h l m k : h !! l = Some (CObj m) -> prop h (VRef l) k = Some (default VUndefined (m !! k)).
Proof. intros H. unfold prop. by rewrite H. Qed.

Lemma store_only_inflight {A} (m : M A) s :
  store_only m -> inflight (m s).2 = inflight s.
Proof. intros H. by rewrite (H s). Qed.

Section Matches.

Variable config : Config.t.
Variable creationRequest : CreationRequest.t.
Variable server : Server.t.
Variable imposterState : value.
Variable Date_toJSON : Z -> string.

#[local] Abbreviation getResponseFor_ :=
  (getResponseFor config creationRequest server imposterState Date_toJSON).
#[local] Abbreviation getProxyResponseFor_ := (getProxyResponseFor server).
#[local] Abbreviation fulfil_ := (fulfil config server).
#[local] Abbreviation step_ := (step config creationRequest server imposterState Date_toJSON).
#[local] Abbreviation run_ := (run config creationRequest server imposterState Date_toJSON).

Lemma fulfil_absent i response s :
  inflight s !! i = None -> (fulfil_ i response s).2 = s.
Proof.
  intros Hi. unfold fulfil, mbind, M_bind, bind, get_state. simpl.
  by rewrite Hi.
Qed.

(** A promise that is awaited stays so until it is settled: a new promise is
    another one, and no other operation gives a promise up. *)
Lemma step_keeps_promise s ev i p :
  inflight s !! i = Some p -> ~ settles i ev -> inflight (step_ s ev) !! i = Some p.
Proof.
  intros Hi Hev.
  assert (fresh (dom (inflight s)) <> i) as Hfresh.
  { intros <-. apply (is_fresh (dom (inflight s))). by apply elem_of_dom. }
  destruct ev as [request now|j response|j|proxyResponse key|stub|options| | |f]; simpl.
  - unfold getResponseFor, mbind, M_bind, bind, modify, collab, await, ret.
    simpl. destruct (truthy (recordRequests _ _)); simpl;
      repeat (case_match; simplify_eq/=); by rewrite ?lookup_insert_ne.
  - simpl in Hev.
    unfold fulfil, getResponseFor_then, getProxyResponseFor_then,
      responseConfig_recordMatch, response_recordMatch, recordMatch_of, get_prop,
      throw, mbind, M_bind, bind, modify, collab, get_state, ret, mret, M_ret.
    simpl. repeat (case_match; simplify_eq/=); by rewrite ?lookup_delete_ne.
  - simpl in Hev. unfold fail, modify. simpl. by rewrite lookup_delete_ne.
  - unfold getProxyResponseFor, mbind, M_bind, bind, collab, await.
    repeat (case_match; simplify_eq/=); by rewrite ?lookup_insert_ne.
  - by rewrite store_only_inflight by apply store_only_collab.
  - by rewrite store_only_inflight by apply store_only_toJSON.
  - by rewrite store_only_inflight by apply store_only_collab.
  - by rewrite store_only_inflight by apply store_only_collab.
  - done.
Qed.

Lemma run_keeps_promise s events i p :
  inflight s !! i = Some p -> Forall (fun ev => ~ settles i ev) events ->
  inflight (run_ s events) !! i = Some p.
Proof.
  intros Hi Hevents. revert s Hi.
  induction Hevents as [|ev events Hev _ IH]; intros s Hi; [done|].
  apply (IH (step_ s ev)). by apply step_keeps_promise.
Qed.

(** What [getResponseFor] has done when it returns its promise. *)
Lemma getResponseFor_returns request now s i s1 :
  getResponseFor_ request now s = (Ok i, s1) ->
  exists responseConfig h,
    Server.stubs_getResponseFor server request imposterState (store s)
    = (Ok responseConfig, h)
    /\ inflight s1 !! i = Some (PResolve responseConfig)
    /\ calls s1 = calls s.
Proof.
  unfold getResponseFor, mbind, M_bind, bind, modify, collab, await, ret. simpl.
  intros H.
  destruct (Server.stubs_getResponseFor server request imposterState (store s))
    as [[responseConfig|e] h] eqn:Hmatch.
  - exists responseConfig, h. split; [done|].
    destruct (truthy (recordRequests _ _)); simpl in H; rewrite Hmatch in H; simpl in H;
      repeat (case_match; simplify_eq/=); by rewrite lookup_insert_eq.
  - destruct (truthy (recordRequests _ _)); simpl in H; rewrite Hmatch in H; done.
Qed.

Lemma getProxyResponseFor_returns proxyResponse key s i s1 :
  getProxyResponseFor_ proxyResponse key s = (Ok i, s1) ->
  inflight s1 !! i = Some PResolveProxy /\ calls s1 = calls s.
Proof.
  unfold getProxyResponseFor, mbind, M_bind, bind, collab, await. intros H.
  repeat (case_match; simplify_eq/=). by rewrite lookup_insert_eq.
Qed.

(** Looking [recordMatch] up: it is there to be called, or the lookup
    throws. *)
Lemma recordMatch_of_run v s :
  recordMatch_of v s
  = match prop (store s) v "recordMatch" with
    | Some (VFun _) => (Ok tt, s)
    | _ => (Throw TypeError, s)
    end.
Proof.
  unfold recordMatch_of. rewrite bind_run.
  destruct (prop (store s) v "recordMatch") as [x|] eqn:Hx.
  - rewrite (get_prop_prop _ _ _ _ Hx). by destruct x.
  - by rewrite (get_prop_none _ _ _ Hx).
Qed.

Lemma responseConfig_recordMatch_run responseConfig response s :
  responseConfig_recordMatch server responseConfig response s
  = match prop (store s) responseConfig "recordMatch" with
    | Some (VFun _) =>
        let '(o, h) :=
          Server.responseConfig_recordMatch server responseConfig response (store s) in
        (o, set_store h
              (set_calls (calls s ++ [ConfigRecordMatch responseConfig response]) s))
    | _ => (Throw TypeError, s)
    end.
Proof.
  unfold responseConfig_recordMatch. rewrite bind_run, recordMatch_of_run.
  destruct (prop (store s) responseConfig "recordMatch") as [[]|]; done.
Qed.

Lemma response_recordMatch_run response s :
  response_recordMatch server response s
  = match prop (store s) response "recordMatch" with
    | Some (VFun _) =>
        let '(o, h) := Server.response_recordMatch server response (store s) in
        (o, set_store h (set_calls (calls s ++ [ResponseRecordMatch response]) s))
    | _ => (Throw TypeError, s)
    end.
Proof.
  unfold response_recordMatch. rewrite bind_run, recordMatch_of_run.
  destruct (prop (store s) response "recordMatch") as [[]|]; done.
Qed.

(** The settling of an awaited promise: it is awaited no more, and its
    callback runs. *)
Lemma fulfil_run i response s :
  fulfil_ i response s
  = match inflight s !! i with
    | Some (PResolve responseConfig) =>
        getResponseFor_then config server responseConfig response
          (set_inflight (delete i (inflight s)) s)
    | Some PResolveProxy =>
        getProxyResponseFor_then config server response
          (set_inflight (delete i (inflight s)) s)
    | None => (Ok VUndefined, s)
    end.
Proof.
  unfold fulfil. rewrite bind_run. unfold get_state at 1.
  destruct (inflight s !! i) as [[responseConfig|]|]; done.
Qed.

(** The callback of [getResponseFor], with match recording on, on a response
    object whose [proxy] is falsy. *)
Lemma getResponseFor_then_run responseConfig l m s :
  truthy (Config.recordMatches config) = true ->
  store s !! l = Some (CObj m) ->
  truthy (default VUndefined (m !! "proxy")) = false ->
  let wrapped := default VUndefined (m !! "response") in
  getResponseFor_then config server responseConfig (VRef l) s
  = match responseConfig_recordMatch server responseConfig
            (if truthy wrapped then wrapped else VRef l) s with
    | (Ok _, s') => (Ok (VRef l), s')
    | (Throw e, s') => (Throw e, s')
    end.
Proof.
  intros Hflag Hl Hproxy wrapped. subst wrapped.
  unfold getResponseFor_then. rewrite Hflag. rewrite !bind_run.
  rewrite (get_prop_prop _ _ _ _ (prop_object _ _ _ "proxy" Hl)).
  unfold ret at 1. rewrite Hproxy. simpl. rewrite !bind_run.
  rewrite (get_prop_prop _ _ _ _ (prop_object _ _ _ "response" Hl)).
  by destruct (truthy (default VUndefined (m !! "response"))).
Qed.

Lemma fulfil_records i l m f responseConfig s :
  truthy (Config.recordMatches config) = true ->
  inflight s !! i = Some (PResolve responseConfig) ->
  store s !! l = Some (CObj m) ->
  truthy (default VUndefined (m !! "proxy")) = false ->
  prop (store s) responseConfig "recordMatch" = Some (VFun f) ->
  let wrapped := default VUndefined (m !! "response") in
  calls (fulfil_ i (VRef l) s).2
  = (calls s ++ [ConfigRecordMatch responseConfig
                   (if truthy wrapped then wrapped else VRef l)])%list
  /\ inflight (fulfil_ i (VRef l) s).2 = delete i (inflight s).
Proof.
  intros Hflag Hi Hl Hproxy Hmethod wrapped.
  rewrite fulfil_run, Hi.
  rewrite (getResponseFor_then_run responseConfig l m) by done.
  rewrite responseConfig_recordMatch_run. simpl. rewrite Hmethod.
  fold wrapped.
  by destruct (Server.responseConfig_recordMatch server responseConfig _ (store s))
    as [[[]|e] h].
Qed.

(** The callback of [getProxyResponseFor], with match recording on, on a
    response that has a [recordMatch]. *)
Lemma fulfil_proxy_records i f response s :
  truthy (Config.recordMatches config) = true ->
  inflight s !! i = Some PResolveProxy ->
  prop (store s) response "recordMatch" = Some (VFun f) ->
  calls (fulfil_ i response s).2 = (calls s ++ [ResponseRecordMatch response])%list
  /\ inflight (fulfil_ i response s).2 = delete i (inflight s).
Proof.
  intros Hflag Hi Hmethod.
  rewrite fulfil_run, Hi. unfold getProxyResponseFor_then. rewrite Hflag.
  rewrite bind_run, response_recordMatch_run. simpl. rewrite Hmethod.
  by destruct (Server.response_recordMatch server response (store s)) as [[[]|e] h].
Qed.

(** C4: with match recording enabled.  When [getResponseFor] has returned
    its promise it has recorded nothing yet.  Whatever happens before the
    promise is settled, when it is then fulfilled with a response object
    that has no [proxy] field, [recordMatch] is called once, on the response
    configuration that the stub store matched to the request: with the
    object under [response] if the response has one, with the response
    itself if it has no such field.  Likewise for [getProxyResponseFor]:
    nothing is recorded by the call, and when its promise is fulfilled
    [recordMatch] is called once on the response, as it is.  In both cases
    the callback has run for good: fulfilling the same promise again records
    nothing.  The receiver must have a [recordMatch] to call. *)
Theorem match_recorded_once :
  truthy (Config.recordMatches config) = true ->
  (forall request now s i s1 events,
     getResponseFor_ request now s = (Ok i, s1) ->
     Forall (fun ev => ~ settles i ev) events ->
     let s2 := run_ s1 events in
     exists responseConfig h,
       Server.stubs_getResponseFor server request imposterState (store s)
       = (Ok responseConfig, h)
       /\ calls s1 = calls s
       /\ forall l m f,
            store s2 !! l = Some (CObj m) ->
            m !! "proxy" = None ->
            prop (store s2) responseConfig "recordMatch" = Some (VFun f) ->
            let s3 := (fulfil_ i (VRef l) s2).2 in
            let wrapped := default VUndefined (m !! "response") in
            let recorded := if truthy wrapped then wrapped else VRef l in
            calls s3 = (calls s2 ++ [ConfigRecordMatch responseConfig recorded])%list
            /\ (forall inner, m !! "response" = Some (VRef inner) -> recorded = VRef inner)
            /\ (m !! "response" = None -> recorded = VRef l)
            /\ inflight s3 !! i = None
            /\ (forall again, calls (fulfil_ i again s3).2 = calls s3))
  /\ (forall proxyResponse proxyResolutionKey s i s1 events,
        getProxyResponseFor_ proxyResponse proxyResolutionKey s = (Ok i, s1) ->
        Forall (fun ev => ~ settles i ev) events ->
        let s2 := run_ s1 events in
        calls s1 = calls s
        /\ forall response f,
             prop (store s2) response "recordMatch" = Some (VFun f) ->
             let s3 := (fulfil_ i response s2).2 in
             calls s3 = (calls s2 ++ [ResponseRecordMatch response])%list
             /\ inflight s3 !! i = None
             /\ (forall again, calls (fulfil_ i again s3).2 = calls s3)).
Proof.
  intros Hflag. split.
  - intros request now s i s1 events Hcall Hevents s2.
    destruct (getResponseFor_returns _ _ _ _ _ Hcall)
      as (responseConfig & h & Hmatch & Hi & Hcalls).
    exists responseConfig, h. split; [done|]. split; [done|].
    intros l m f Hl Hproxy Hmethod s3 wrapped recorded.
    pose proof (run_keeps_promise s1 events i _ Hi Hevents) as Hi2.
    destruct (fulfil_records i l m f responseConfig s2 Hflag Hi2 Hl) as [H3 Hgone];
      [by rewrite Hproxy|done|].
    assert (inflight s3 !! i = None) as Hnone.
    { subst s3. rewrite Hgone. apply lookup_delete_eq. }
    split; [exact H3|]. split; [|split; [|split]].
    + intros inner Hinner. subst recorded wrapped. by rewrite Hinner.
    + intros Hnone'. subst recorded wrapped. by rewrite Hnone'.
    + done.
    + intros again. by rewrite fulfil_absent.
  - intros proxyResponse key s i s1 events Hcall Hevents s2.
    destruct (getProxyResponseFor_returns _ _ _ _ _ Hcall) as [Hi Hcalls].
    split; [done|]. intros response f Hmethod s3.
    pose proof (run_keeps_promise s1 events i _ Hi Hevents) as Hi2.
    destruct (fulfil_proxy_records i f response s2 Hflag Hi2 Hmethod) as [H3 Hgone].
    assert (inflight s3 !! i = None) as Hnone.
    { subst s3. rewrite Hgone. apply lookup_delete_eq. }
    split; [exact H3|]. split; [done|].
    intros again. by rewrite fulfil_absent.
Qed.

End Matches.

(** ** Serialization: the fields of the record *)

Lemma bind_ok {A B} (m : M A) (k : A -> M B) s b s' :
  (m ≫= k) s = (Ok b, s') ->
  exists a s1, m s = (Ok a, s1) /\ k a s1 = (Ok b, s').
Proof.
  unfold mbind, M_bind, bind. destruct (m s) as [[a|e] s1]; [eauto|done].
Qed.

Lemma lookup_fold_insert (entries : list (string * value)) (r0 : record) k :
  k ∉ entries.*1 ->
  fold_left (fun result kv => <[kv.1 := FValue kv.2]> result) entries r0 !! k = r0 !! k.
Proof.
  revert r0. induction entries as [|[k0 v0] l IH]; intros r0 Hk; simpl; [done|].
  simpl in Hk. apply not_elem_of_cons in Hk as [Hne Hk].
  rewrite IH by done. by rewrite lookup_insert_ne.
Qed.


Ltac read_op :=
  let s := fresh "s" in
  intros s; cbv beta delta [get_prop has_own_property array_elems
                            length_positive object_entries];
  repeat case_match; done.

Lemma read_only_get_prop v k : read_only (get_prop v k).
Proof. read_op. Qed.

Lemma read_only_has_own_property v k : read_only (has_own_property v k).
Proof. read_op. Qed.

Lemma read_only_array_elems v : read_only (array_elems v).
Proof. read_op. Qed.

Lemma read_only_length_positive v : read_only (length_positive v).
Proof. read_op. Qed.

Lemma read_only_object_entries v : read_only (object_entries v).
Proof. read_op. Qed.

Lemma read_only_field_elems f : read_only (field_elems f).
Proof. destruct f as [[]|]; simpl; try done. apply read_only_array_elems. Qed.

Lemma read_only_bind {A B} (m : M A) (k : A -> M B) :
  read_only m -> (forall a, read_only (k a)) -> read_only (m ≫= k).
Proof.
  intros Hm Hk s. unfold mbind, M_bind, bind.
  specialize (Hm s). destruct (m s) as [[a|e] s1]; simpl in *; subst; [apply Hk|done].
Qed.

Lemma read_only_filter_elems p l :
  (forall x, read_only (p x)) -> read_only (filter_elems p l).
Proof.
  intros Hp. induction l as [|x l IH]; simpl; [done|].
  apply read_only_bind; [done|]. intros b.
  apply read_only_bind; [done|]. done.
Qed.

Lemma read_only_state {A} (m : M A) s o s' : read_only m -> m s = (o, s') -> s' = s.
Proof. intros Hm H. specialize (Hm s). by rewrite H in Hm. Qed.

Section Fields.

Variable creationRequest : CreationRequest.t.
Variable server : Server.t.

#[local] Abbreviation toJSON_ := (toJSON creationRequest server).
#[local] Abbreviation addDetailsTo_ := (addDetailsTo creationRequest server).

(** The record that [addDetailsTo] leaves. *)
Lemma addDetailsTo_ok result s r s' :
  addDetailsTo_ result s = (Ok r, s') ->
  exists entries stubs,
    object_entries (Server.metadata server) s = (Ok entries, s)
    /\ Server.stubs_stubs server (store s) = (Ok stubs, store s')
    /\ s' = set_store (store s') s
    /\ r = <["stubs" := FValue stubs]>
           (<["requests" := FRequests]>
              (fold_left (fun result kv => <[kv.1 := FValue kv.2]> result) entries
                 (<["recordRequests" :=
                      FValue (VBool (truthy (CreationRequest.recordRequests creationRequest)))]>
                    (if truthy (CreationRequest.name creationRequest)
                     then <["name" := FValue (CreationRequest.name creationRequest)]> result
                     else result)))).
Proof.
  unfold addDetailsTo. intros H.
  apply bind_ok in H as (entries & s1 & He & H).
  apply bind_ok in H as (stubs & s2 & Hs & H).
  assert (s1 = s) as -> by (eapply read_only_state, He; apply read_only_object_entries).
  unfold collab in Hs. destruct (Server.stubs_stubs server (store s)) as [o h] eqn:E.
  simplify_eq/=. unfold mret, M_ret, ret in H. simplify_eq/=.
  exists entries, stubs. done.
Qed.

Lemma removeNonEssentialInformationFrom_ok result s r s' :
  removeNonEssentialInformationFrom result s = (Ok r, s') ->
  r = delete "_links" (delete "requests" (delete "numberOfRequests" result)).
Proof.
  unfold removeNonEssentialInformationFrom. intros H.
  apply bind_ok in H as (stubs & s1 & _ & H).
  apply bind_ok in H as (? & s2 & _ & H).
  unfold mret, M_ret, ret in H. by simplify_eq/=.
Qed.

Lemma removeProxiesFrom_ok result s r s' :
  removeProxiesFrom result s = (Ok r, s') ->
  exists kept, r = <["stubs" := FArray kept]> result.
Proof.
  unfold removeProxiesFrom. intros H.
  apply bind_ok in H as (stubs & s1 & _ & H).
  apply bind_ok in H as (? & s2 & _ & H).
  apply bind_ok in H as (stubs' & s3 & _ & H).
  apply bind_ok in H as (kept & s4 & _ & H).
  unfold mret, M_ret, ret in H. simplify_eq/=. eauto.
Qed.

(** [toJSON], stage by stage, when it returns. *)
Lemma toJSON_ok options s r s' :
  toJSON_ options s = (Ok r, s') ->
  exists r1 s1 r3 s2,
    (if truthy (option_of options "list")
     then r1 = base_fields creationRequest server (numberOfRequests s) /\ s1 = s
     else addDetailsTo_ (base_fields creationRequest server (numberOfRequests s)) s
          = (Ok r1, s1))
    /\ (if truthy (option_of options "replayable")
        then removeNonEssentialInformationFrom (<["_links" := self_link server]> r1) s1
             = (Ok r3, s2)
        else r3 = <["_links" := self_link server]> r1 /\ s2 = s1)
    /\ (if truthy (option_of options "removeProxies")
        then removeProxiesFrom r3 s2 = (Ok r, s')
        else r = r3 /\ s' = s2).
Proof.
  unfold toJSON. intros H.
  apply bind_ok in H as (s0 & s0' & Hget & H). unfold get_state in Hget. simplify_eq.
  apply bind_ok in H as (r1 & s1 & H1 & H).
  apply bind_ok in H as (r3 & s2 & H3 & H).
  apply bind_ok in H as (r4 & s4 & H4 & H).
  unfold mret, M_ret, ret in H. simplify_eq.
  exists r1, s1, r3, s2. repeat split.
  - destruct (truthy (option_of options "list")); simpl in H1; [|done].
    unfold ret in H1. by simplify_eq.
  - destruct (truthy (option_of options "replayable")); [done|].
    unfold ret in H3. by simplify_eq.
  - destruct (truthy (option_of options "removeProxies")); [done|].
    unfold ret in H4. by simplify_eq.
Qed.

(** A call with [list] returns only if neither transform is asked for. *)
Lemma toJSON_list_ok options s r s' :
  toJSON_ options s = (Ok r, s') ->
  truthy (option_of options "list") = true ->
  truthy (option_of options "replayable") = false
  /\ truthy (option_of options "removeProxies") = false
  /\ r = <["_links" := self_link server]>
         (base_fields creationRequest server (numberOfRequests s))
  /\ s' = s.
Proof.
  intros H Hlist. apply toJSON_ok in H as (r1 & s1 & r3 & s2 & H1 & H3 & H4).
  rewrite Hlist in H1. destruct H1 as [-> ->].
  destruct (truthy (option_of options "replayable")).
  { unfold removeNonEssentialInformationFrom in H3.
    apply bind_ok in H3 as (? & ? & Hf & _). by vm_compute in Hf. }
  destruct H3 as [-> ->].
  destruct (truthy (option_of options "removeProxies")).
  { unfold removeProxiesFrom in H4.
    apply bind_ok in H4 as (? & ? & Hf & _). by vm_compute in Hf. }
  by destruct H4 as [-> ->].
Qed.

(** A field of the detail block that no later stage touches. *)
Lemma detail_field options s r s' k :
  toJSON_ options s = (Ok r, s') ->
  truthy (option_of options "list") = false ->
  k ∉ metadata_keys server s ->
  k <> "stubs" -> k <> "requests" -> k <> "_links" ->
  (truthy (option_of options "replayable") = true -> k <> "numberOfRequests") ->
  r !! k =
    (<["recordRequests" :=
         FValue (VBool (truthy (CreationRequest.recordRequests creationRequest)))]>
       (if truthy (CreationRequest.name creationRequest)
        then <["name" := FValue (CreationRequest.name creationRequest)]>
               (base_fields creationRequest server (numberOfRequests s))
        else base_fields creationRequest server (numberOfRequests s))) !! k.
Proof.
  intros H Hlist Hmeta Hstubs Hrequests Hlinks Hcounter.
  apply toJSON_ok in H as (r1 & s1 & r3 & s2 & H1 & H3 & H4).
  rewrite Hlist in H1.
  apply addDetailsTo_ok in H1 as (entries & stubs & He & _ & _ & Hr1).
  unfold metadata_keys in Hmeta. rewrite He in Hmeta.
  assert (r !! k = r3 !! k) as ->.
  { destruct (truthy (option_of options "removeProxies")).
    - apply removeProxiesFrom_ok in H4 as [kept ->]. by rewrite lookup_insert_ne.
    - by destruct H4 as [-> _]. }
  assert (r3 !! k = r1 !! k) as ->.
  { destruct (truthy (option_of options "replayable")).
    - apply removeNonEssentialInformationFrom_ok in H3 as ->.
      specialize (Hcounter eq_refl).
      rewrite !lookup_delete_ne by congruence. by rewrite lookup_insert_ne.
    - destruct H3 as [-> _]. by rewrite lookup_insert_ne. }
  rewrite Hr1. rewrite !lookup_insert_ne by done. by apply lookup_fold_insert.
Qed.

(** C6, amended: when [toJSON] returns, its record holds the protocol name and
    the bound port, and the current request counter unless [replayable] is
    set; in detail mode this is so for a field unless the metadata has a
    property of the same name.  With [list], the record holds [protocol],
    [port], [numberOfRequests] and [_links] and nothing else, so that name,
    recording flag, metadata, recorded requests and stubs are absent; and
    [toJSON] returns with [list] only if no transform is asked for. *)
Theorem base_and_summary_fields options s r s' :
  toJSON_ options s = (Ok r, s') ->
  let list := truthy (option_of options "list") in
  let replayable := truthy (option_of options "replayable") in
  let shadowed k := list = false /\ k ∈ metadata_keys server s in
  (~ shadowed "protocol" ->
     r !! "protocol" = Some (FValue (CreationRequest.protocol creationRequest)))
  /\ (~ shadowed "port" -> r !! "port" = Some (FValue (VNum (Server.port server))))
  /\ (replayable = false -> ~ shadowed "numberOfRequests" ->
        r !! "numberOfRequests" = Some (FValue (VNum (Z.of_nat (numberOfRequests s)))))
  /\ (list = true ->
        (forall k, is_Some (r !! k) <->
                   k ∈ ["protocol"; "port"; "numberOfRequests"; "_links"])
        /\ r !! "name" = None /\ r !! "recordRequests" = None
        /\ r !! "requests" = None /\ r !! "stubs" = None
        /\ replayable = false
        /\ truthy (option_of options "removeProxies") = false).
Proof.
  intros H list replayable shadowed.
  assert (forall k, k ∈ ["protocol"; "port"; "numberOfRequests"] ->
            (k = "numberOfRequests" -> replayable = false) ->
            ~ shadowed k ->
            r !! k = base_fields creationRequest server (numberOfRequests s) !! k) as Hbase.
  { intros k Hk Hcounter Hshadow.
    assert (k <> "stubs" /\ k <> "requests" /\ k <> "_links"
            /\ k <> "recordRequests" /\ k <> "name") as (? & ? & ? & ? & ?).
    { repeat (apply elem_of_cons in Hk as [->|Hk]; [repeat split; done|]).
      by apply elem_of_nil in Hk. }
    destruct list eqn:Hlist; subst list.
    - apply toJSON_list_ok in H as (_ & _ & -> & _); [|done].
      by rewrite lookup_insert_ne.
    - rewrite (detail_field options s r s' k H Hlist); try done.
      + by destruct (truthy (CreationRequest.name creationRequest));
          rewrite !lookup_insert_ne.
      + intros Hin. apply Hshadow. by split.
      + intros Hrep ->. fold replayable in Hrep. rewrite Hcounter in Hrep; done. }
  split; [|split; [|split]].
  - intros Hs. rewrite Hbase; [done|apply list_elem_of_here|done|done].
  - intros Hs. rewrite Hbase; [done|apply list_elem_of_further, list_elem_of_here|done|done].
  - intros Hrep Hs.
    rewrite Hbase; [done|do 2 apply list_elem_of_further; apply list_elem_of_here|done|done].
  - intros Hlist. subst list replayable.
    apply toJSON_list_ok in H as (Hrep & Hrem & -> & _); [|done].
    repeat split; try done.
    + intros [x Hx]. unfold base_fields in Hx.
      repeat (apply lookup_insert_Some in Hx as [[<- _]|[_ Hx]];
              [repeat first [apply list_elem_of_here | apply list_elem_of_further]|]).
      apply lookup_singleton_Some in Hx as [<- _]. apply list_elem_of_here.
    + intros Hk. repeat (apply elem_of_cons in Hk as [->|Hk]; [by eexists|]).
      by apply elem_of_nil in Hk.
Qed.

End Fields.

(** Decides a membership question on closed lists. *)
Ltac by_computation := apply (bool_decide_unpack _); vm_compute; exact I.

(** In the demo, the summary of the imposter has the four fields. *)
Lemma base_and_summary_fields_demo :
  exists r s',
    Demo.toJSON (Some {["list" := VBool true]}) Demo.listening = (Ok r, s')
    /\ r !! "numberOfRequests" = Some (FValue (VNum 0))
    /\ r !! "stubs" = None.
Proof.
  eexists _, _. split; [vm_compute; reflexivity|].
  assert (Demo.toJSON (Some {["list" := VBool true]}) Demo.listening
          = (Ok (<["_links" := self_link Demo.server]>
                   (base_fields Demo.creationRequest Demo.server 0)), Demo.listening))
    as H by (vm_compute; reflexivity).
  unfold Demo.toJSON in H.
  destruct (base_and_summary_fields Demo.creationRequest Demo.server _ _ _ _ H)
    as (_ & _ & Hn & Hlist).
  split.
  - apply Hn; [reflexivity|]. intros [Hl _]. vm_compute in Hl. discriminate.
  - apply Hlist. reflexivity.
Defined.

(** C6 as stated fails: with [replayable] the record that [toJSON] returns has
    no request counter. *)
Lemma counter_missing_when_replayable :
  exists r s',
    Demo.toJSON (Some {["replayable" := VBool true]}) Demo.listening = (Ok r, s')
    /\ r !! "numberOfRequests" = None.
Proof. eexists _, _. split; vm_compute; reflexivity. Qed.

(** ** The recording flag that [toJSON] reports *)

(** C10, amended: in detail mode, and unless the metadata has a property
    named [recordRequests] of its own, the field [recordRequests] of the
    record is [Boolean(creationRequest.recordRequests)].  The global flag has
    no part in it: when it is set and the flag of the creation request is
    absent or false, the record says [false] while every call to
    [getResponseFor] appends its request to the log. *)
Theorem recording_flag_reported (config : Config.t)
    (creationRequest : CreationRequest.t) (server : Server.t)
    (imposterState : value) (Date_toJSON : Z -> string)
    (options : option (gmap string value)) (s : state) (r : record) (s' : state) :
  toJSON creationRequest server options s = (Ok r, s') ->
  truthy (option_of options "list") = false ->
  "recordRequests" ∉ metadata_keys server s ->
  r !! "recordRequests"
    = Some (FValue (VBool (truthy (CreationRequest.recordRequests creationRequest))))
  /\ (truthy (Config.recordRequests config) = true ->
      truthy (CreationRequest.recordRequests creationRequest) = false ->
      r !! "recordRequests" = Some (FValue (VBool false))
      /\ forall request now s0,
           requests (getResponseFor config creationRequest server imposterState
                       Date_toJSON request now s0).2
           = (requests s0 ++ [stamped Date_toJSON (request, now)])%list).
Proof.
  intros H Hlist Hmeta.
  assert (r !! "recordRequests"
          = Some (FValue (VBool (truthy (CreationRequest.recordRequests creationRequest)))))
    as Hr.
  { rewrite (detail_field _ _ _ _ _ _ _ H Hlist Hmeta); try done.
    by rewrite lookup_insert_eq. }
  split; [done|]. intros Hglobal Hlocal. rewrite Hr, Hlocal. split; [done|].
  intros request now s0.
  destruct (getResponseFor_log config creationRequest server imposterState
              Date_toJSON request now s0) as [_ ->].
  unfold recordRequests. rewrite truthy_js_or, Hglobal. simpl.
  unfold stamped. simpl. by rewrite clone_id.
Qed.

(** In the demo the global flag is set, the creation request has no flag, and
    the record says [false]. *)
Lemma recording_flag_reported_demo :
  exists r s',
    Demo.toJSON None Demo.listening = (Ok r, s')
    /\ truthy (Config.recordRequests Demo.config) = true
    /\ r !! "recordRequests" = Some (FValue (VBool false)).
Proof.
  pose (run := toJSON Demo.creationRequest Demo.server None Demo.listening).
  pose (r := match run.1 with Ok r => r | Throw _ => ∅ end).
  assert (toJSON Demo.creationRequest Demo.server None Demo.listening = (Ok r, run.2))
    as H by (vm_compute; reflexivity).
  exists r, run.2. split; [exact H|]. split; [reflexivity|].
  assert ("recordRequests" ∉ metadata_keys Demo.server Demo.listening) as Hmeta
    by by_computation.
  destruct (recording_flag_reported Demo.config Demo.creationRequest Demo.server
              Demo.imposterState Demo.Date_toJSON None Demo.listening r run.2
              H eq_refl Hmeta) as [_ Hflag].
  by apply Hflag.
Defined.

(** C10 as stated fails: under a protocol whose metadata has a property
    [recordRequests], that property is what the record shows, here [true]
    where [Boolean(creationRequest.recordRequests)] is [false]. *)
Lemma metadata_shadows_recording_flag :
  exists r s',
    toJSON Demo.creationRequest Demo.shadowing_server None Demo.listening = (Ok r, s')
    /\ r !! "recordRequests" = Some (FValue (VBool true))
    /\ truthy (CreationRequest.recordRequests Demo.creationRequest) = false.
Proof. eexists _, _. repeat split; vm_compute; reflexivity. Qed.

(** ** Serialization: what it does to the store *)

Lemma object_evolves_refl h0 h m :
  (forall l a, h0 !! l = Some (CArr a) -> h !! l = Some (CArr a)) ->
  object_evolves h0 h m m.
Proof.
  intros Harr. repeat split; auto.
  intros a rs0 Hm Ha. exists a, rs0. eauto.
Qed.

Lemma evolves_refl h : evolves h h.
Proof.
  split; [done|auto|]. intros l m0 Hl. exists m0. split; [done|].
  by apply object_evolves_refl.
Qed.

Lemma carries_proxy_evolves h0 h v :
  evolves h0 h -> carries_proxy h v = carries_proxy h0 v.
Proof.
  intros [Harr Hfresh Hobj]. destruct v as [| | | | |l|f]; try done. simpl.
  destruct (h0 !! l) as [[m0|a]|] eqn:E.
  - destruct (Hobj l m0 E) as (m & -> & Hm & _). by rewrite Hm.
  - by rewrite (Harr l a E).
  - by destruct (Hfresh l E) as [->|[a ->]].
Qed.

Lemma filter_ext_bool (f g : value -> bool) (l : list value) :
  (forall v, f v = g v) ->
  filter (fun v => f v = false) l = filter (fun v => g v = false) l.
Proof.
  intros Hfg. induction l as [|x l IH]; [done|].
  rewrite !filter_cons. rewrite IH. rewrite (Hfg x). done.
Qed.

Lemma filter_idemp (f : value -> bool) (l : list value) :
  filter (fun v => f v = false) (filter (fun v => f v = false) l)
  = filter (fun v => f v = false) l.
Proof.
  induction l as [|x l IH]; [done|].
  rewrite filter_cons. destruct (decide (f x = false)) as [Hx|Hx].
  - rewrite filter_cons. rewrite decide_True by done. by rewrite IH.
  - done.
Qed.

Lemma evolves_trans h0 h1 h2 : evolves h0 h1 -> evolves h1 h2 -> evolves h0 h2.
Proof.
  intros H01 H12.
  pose proof (carries_proxy_evolves h0 h1) as Hcp.
  destruct H01 as [Harr1 Hfresh1 Hobj1]. destruct H12 as [Harr2 Hfresh2 Hobj2].
  split.
  - auto.
  - intros l Hl. destruct (Hfresh1 l Hl) as [H1|[a H1]]; [auto|]. right. eauto.
  - intros l m0 Hl.
    destruct (Hobj1 l m0 Hl) as (m1 & Hl1 & Hk1 & Hm1 & Ht1 & Hw1 & Hp1).
    destruct (Hobj2 l m1 Hl1) as (m2 & Hl2 & Hk2 & Hm2 & Ht2 & Hw2 & Hp2).
    exists m2. split; [done|]. repeat split.
    + intros k ? ? ?. rewrite Hk2, Hk1; done.
    + destruct Hm2 as [-> | ->]; auto.
    + destruct Ht2 as [-> | ->]; auto.
    + destruct Hw2 as [-> | ?]; [|auto].
      destruct Hw1 as [->|(a & rs & Ha & Hrs)]; [auto|]. right. eauto.
    + intros a rs0 Ha Hrs0.
      destruct (Hp1 a rs0 Ha Hrs0) as (a1 & rs1 & Ha1 & Hrs1 & Hcase1).
      destruct (Hp2 a1 rs1 Ha1 Hrs1) as (a2 & rs2 & Ha2 & Hrs2 & Hcase2).
      exists a2, rs2. split; [done|]. split; [done|].
      assert (filter (fun v => carries_proxy h1 v = false) rs1
              = filter (fun v => carries_proxy h0 v = false) rs1) as Hf.
      { apply filter_ext_bool. intros v. apply Hcp. by split. }
      rewrite Hf in Hcase2.
      destruct Hcase1 as [-> | ->]; destruct Hcase2 as [-> | ->]; auto.
      right. apply filter_idemp.
Qed.

Lemma has_proxy_ok v s b s' :
  has_own_property v "proxy" s = (Ok b, s') ->
  s' = s /\ b = carries_proxy (store s) v.
Proof.
  unfold has_own_property, carries_proxy. intros H.
  repeat (case_match; simplify_eq); done.
Qed.

Lemma filter_not_proxy_ok rs s kept s' :
  filter_elems not_proxy rs s = (Ok kept, s') ->
  s' = s /\ kept = filter (fun v => carries_proxy (store s) v = false) rs.
Proof.
  revert kept. induction rs as [|x rs IH]; intros kept H; simpl in H.
  - unfold ret in H. by simplify_eq.
  - apply bind_ok in H as (b & s1 & Hb & H).
    apply bind_ok in H as (rest & s2 & Hrest & H).
    unfold mret, M_ret, ret in H. simplify_eq.
    unfold not_proxy in Hb. apply bind_ok in Hb as (b0 & s0 & Hb0 & Hb).
    unfold mret, M_ret, ret in Hb. simplify_eq.
    apply has_proxy_ok in Hb0 as [-> ->].
    destruct (IH rest Hrest) as [-> ->]. split; [done|].
    rewrite filter_cons.
    destruct (carries_proxy (store s) x); [by rewrite decide_False|by rewrite decide_True].
Qed.

Lemma evolves_delete h l m k :
  h !! l = Some (CObj m) ->
  k = "matches" \/ k = "_proxyResponseTime" ->
  evolves h (<[l := CObj (delete k m)]> h).
Proof.
  intros Hl Hk. split.
  - intros l0 a Ha. rewrite lookup_insert_ne; [done|]. congruence.
  - intros l0 Hl0. left. rewrite lookup_insert_ne; [done|]. congruence.
  - intros l0 m0 Hl0. destruct (decide (l0 = l)) as [->|Hne].
    + rewrite lookup_insert_eq. simplify_eq. eexists. split; [done|].
      repeat split.
      * intros k0 ? ? ?. apply lookup_delete_ne. by destruct Hk as [-> | ->].
      * destruct Hk as [-> | ->]; [right; apply lookup_delete_eq|left; by apply lookup_delete_ne].
      * destruct Hk as [-> | ->]; [left; by apply lookup_delete_ne|right; apply lookup_delete_eq].
      * left. apply lookup_delete_ne. by destruct Hk as [-> | ->].
      * intros a rs0 Ha Hrs0. exists a, rs0.
        rewrite lookup_delete_ne by (by destruct Hk as [-> | ->]).
        rewrite lookup_insert_ne by congruence. auto.
    + rewrite lookup_insert_ne by done. exists m0. split; [done|].
      apply object_evolves_refl. intros l1 a Ha.
      rewrite lookup_insert_ne; [done|]. congruence.
Qed.

Lemma evolves_replace_responses h l m a rs :
  h !! l = Some (CObj m) ->
  m !! "responses" = Some (VRef a) ->
  h !! a = Some (CArr rs) ->
  let a' := fresh (dom h) in
  let kept := filter (fun v => carries_proxy h v = false) rs in
  evolves h (<[l := CObj (<["responses" := VRef a']> m)]> (<[a' := CArr kept]> h)).
Proof.
  intros Hl Hm Ha a' kept.
  assert (h !! a' = None) as Hfresh by (apply not_elem_of_dom, is_fresh).
  assert (a' <> l) as Hne by congruence.
  assert (forall l0 c, h !! l0 = Some (CArr c) ->
            <[l := CObj (<["responses" := VRef a']> m)]> (<[a' := CArr kept]> h) !! l0
            = Some (CArr c)) as Harr.
  { intros l0 c Hc. rewrite !lookup_insert_ne; [done|congruence|congruence]. }
  split.
  - done.
  - intros l0 Hl0. destruct (decide (l0 = a')) as [->|Hne'].
    + right. exists kept. rewrite lookup_insert_ne by done. by rewrite lookup_insert_eq.
    + left. rewrite !lookup_insert_ne; [done|congruence|congruence].
  - intros l0 m0 Hl0. destruct (decide (l0 = l)) as [->|Hne'].
    + rewrite lookup_insert_eq. simplify_eq. eexists. split; [done|].
      repeat split.
      * intros k ? ? ?. by rewrite lookup_insert_ne.
      * left. by rewrite lookup_insert_ne.
      * left. by rewrite lookup_insert_ne.
      * right. exists a', kept. rewrite lookup_insert_eq. split; [done|].
        rewrite lookup_insert_ne by done. by rewrite lookup_insert_eq.
      * intros a0 rs0 Ha0 Hrs0. simplify_eq. exists a', kept.
        rewrite lookup_insert_eq. split; [done|].
        rewrite lookup_insert_ne by done. rewrite lookup_insert_eq. auto.
    + rewrite lookup_insert_ne by done.
      rewrite lookup_insert_ne by congruence. exists m0. split; [done|].
      by apply object_evolves_refl.
Qed.

Lemma get_prop_ok v k s x s' :
  get_prop v k s = (Ok x, s') -> s' = s /\ prop (store s) v k = Some x.
Proof.
  unfold get_prop, prop. intros H. repeat (case_match; simplify_eq); done.
Qed.

Lemma array_elems_ok v s rs s' :
  array_elems v s = (Ok rs, s') -> s' = s /\ elems (store s) v = Some rs.
Proof.
  unfold array_elems, elems. intros H. repeat (case_match; simplify_eq); done.
Qed.

Lemma prop_ref h v k a :
  prop h v k = Some (VRef a) ->
  exists l m, v = VRef l /\ h !! l = Some (CObj m) /\ m !! k = Some (VRef a).
Proof.
  unfold prop. intros H. repeat (case_match; simplify_eq).
  destruct (_ !! k) eqn:E; simplify_eq/=. eauto.
Qed.

Lemma elems_ref h v rs :
  elems h v = Some rs -> exists a, v = VRef a /\ h !! a = Some (CArr rs).
Proof. unfold elems. intros H. repeat (case_match; simplify_eq). eauto. Qed.

Lemma evolving_ret {A} (a : A) : evolving (ret a).
Proof. intros s. apply evolves_refl. Qed.

Lemma evolving_read_only {A} (m : M A) : read_only m -> evolving m.
Proof. intros Hm s. rewrite (Hm s). apply evolves_refl. Qed.

Lemma evolving_bind {A B} (m : M A) (k : A -> M B) :
  evolving m -> (forall a, evolving (k a)) -> evolving (m ≫= k).
Proof.
  intros Hm Hk s. rewrite bind_run. specialize (Hm s).
  destruct (m s) as [[a|e] s1]; simpl in *; [|done].
  eapply evolves_trans; [done|apply Hk].
Qed.

Lemma evolving_for_each {A} (f : A -> M unit) l :
  (forall x, evolving (f x)) -> evolving (for_each f l).
Proof.
  intros Hf. induction l as [|x l IH]; simpl; [apply evolving_ret|].
  apply evolving_bind; auto.
Qed.

Lemma evolving_if {A} (b : bool) (m1 m2 : M A) :
  evolving m1 -> evolving m2 -> evolving (if b then m1 else m2).
Proof. by destruct b. Qed.

Lemma evolving_delete_prop v k :
  k = "matches" \/ k = "_proxyResponseTime" -> evolving (delete_prop v k).
Proof.
  intros Hk s. unfold delete_prop.
  repeat case_match; simpl; try apply evolves_refl. by apply evolves_delete.
Qed.

Lemma evolving_strip_response response : evolving (strip_response response).
Proof.
  unfold strip_response.
  apply evolving_bind; [apply evolving_read_only, read_only_get_prop|]. intros body.
  apply evolving_if; [|apply evolving_ret].
  apply evolving_bind; [apply evolving_read_only, read_only_get_prop|]. intros time.
  apply evolving_if; [|apply evolving_ret].
  apply evolving_delete_prop. by right.
Qed.

Lemma evolving_strip_stub stub : evolving (strip_stub stub).
Proof.
  unfold strip_stub.
  apply evolving_bind; [apply evolving_read_only, read_only_get_prop|]. intros matches.
  apply evolving_bind.
  { apply evolving_if; [|apply evolving_ret]. apply evolving_delete_prop. by left. }
  intros _.
  apply evolving_bind; [apply evolving_read_only, read_only_get_prop|]. intros responses.
  apply evolving_bind; [apply evolving_read_only, read_only_array_elems|]. intros rs.
  apply evolving_for_each, evolving_strip_response.
Qed.

(** What [filter_responses] does when it returns. *)
Lemma filter_responses_ok stub s s' :
  filter_responses stub s = (Ok tt, s') ->
  exists l m a rs,
    stub = VRef l /\ store s !! l = Some (CObj m)
    /\ m !! "responses" = Some (VRef a) /\ store s !! a = Some (CArr rs)
    /\ s' = set_store
              (<[l := CObj (<["responses" := VRef (fresh (dom (store s)))]> m)]>
                 (<[fresh (dom (store s)) :=
                      CArr (filter (fun v => carries_proxy (store s) v = false) rs)]>
                    (store s))) s.
Proof.
  unfold filter_responses. intros H.
  apply bind_ok in H as (responses & s1 & Hr & H). apply get_prop_ok in Hr as [-> Hr].
  apply bind_ok in H as (rs & s1 & Hrs & H). apply array_elems_ok in Hrs as [-> Hrs].
  apply bind_ok in H as (kept & s1 & Hkept & H).
  apply filter_not_proxy_ok in Hkept as [-> ->].
  apply bind_ok in H as (filtered & s1 & Hal & H).
  unfold alloc in Hal. simplify_eq.
  apply elems_ref in Hrs as (a & -> & Ha).
  apply prop_ref in Hr as (l & m & -> & Hl & Hm).
  exists l, m, a, rs. repeat split; try done.
  assert (store s !! fresh (dom (store s)) = None) as Hfresh
    by (apply not_elem_of_dom, is_fresh).
  unfold set_prop in H. simpl in H.
  rewrite lookup_insert_ne in H by congruence. rewrite Hl in H. by simplify_eq.
Qed.

Lemma filter_responses_throw stub s e s' :
  filter_responses stub s = (Throw e, s') -> s' = s.
Proof.
  unfold filter_responses. rewrite bind_run.
  destruct (get_prop stub "responses" s) as [[responses|?] s1] eqn:Hr;
    [|intros; simplify_eq; eapply read_only_state, Hr; apply read_only_get_prop].
  apply get_prop_ok in Hr as [-> Hr]. rewrite bind_run.
  destruct (array_elems responses s) as [[rs|?] s1] eqn:Hrs;
    [|intros; simplify_eq; eapply read_only_state, Hrs; apply read_only_array_elems].
  apply array_elems_ok in Hrs as [-> Hrs]. rewrite bind_run.
  destruct (filter_elems not_proxy rs s) as [[kept|?] s1] eqn:Hk.
  2:{ intros; simplify_eq. eapply read_only_state, Hk.
      apply read_only_filter_elems. intros x. unfold not_proxy.
      apply read_only_bind; [apply read_only_has_own_property|done]. }
  apply filter_not_proxy_ok in Hk as [-> ->]. rewrite bind_run.
  unfold alloc. simpl.
  apply elems_ref in Hrs as (a & -> & Ha).
  apply prop_ref in Hr as (l & m & -> & Hl & Hm).
  assert (store s !! fresh (dom (store s)) = None) as Hfresh
    by (apply not_elem_of_dom, is_fresh).
  unfold set_prop. simpl.
  rewrite lookup_insert_ne by congruence. rewrite Hl. done.
Qed.

Lemma evolving_filter_responses stub : evolving (filter_responses stub).
Proof.
  intros s. destruct (filter_responses stub s) as [[[]|e] s'] eqn:H; simpl.
  - apply filter_responses_ok in H as (l & m & a & rs & -> & Hl & Hm & Ha & ->).
    simpl. by apply (evolves_replace_responses _ l m a rs).
  - apply filter_responses_throw in H as ->. apply evolves_refl.
Qed.

Lemma evolving_removeNonEssentialInformationFrom result :
  evolving (removeNonEssentialInformationFrom result).
Proof.
  unfold removeNonEssentialInformationFrom.
  apply evolving_bind; [apply evolving_read_only, read_only_field_elems|]. intros stubs.
  apply evolving_bind; [apply evolving_for_each, evolving_strip_stub|]. intros _.
  apply evolving_ret.
Qed.

Lemma read_only_has_responses stub : read_only (has_responses stub).
Proof.
  unfold has_responses. apply read_only_bind; [apply read_only_get_prop|].
  intros responses. apply read_only_length_positive.
Qed.

Lemma evolving_removeProxiesFrom result : evolving (removeProxiesFrom result).
Proof.
  unfold removeProxiesFrom.
  apply evolving_bind; [apply evolving_read_only, read_only_field_elems|]. intros stubs.
  apply evolving_bind; [apply evolving_for_each, evolving_filter_responses|]. intros _.
  apply evolving_bind; [apply evolving_read_only, read_only_field_elems|]. intros stubs'.
  apply evolving_bind.
  { apply evolving_read_only, read_only_filter_elems, read_only_has_responses. }
  intros kept. apply evolving_ret.
Qed.

Lemma evolving_transforms options result : evolving (transforms options result).
Proof.
  unfold transforms. apply evolving_bind.
  - apply evolving_if; [apply evolving_removeNonEssentialInformationFrom|apply evolving_ret].
  - intros r. apply evolving_if; [apply evolving_removeProxiesFrom|apply evolving_ret].
Qed.

Lemma option_of_just_list options k :
  option_of (just_list options) k
  = if decide (k = "list") then option_of options "list" else VUndefined.
Proof.
  unfold option_of, just_list. simpl. destruct (decide (k = "list")) as [->|Hne].
  - by rewrite lookup_singleton_eq.
  - by rewrite lookup_singleton_ne.
Qed.

Lemma bind_ret_r {A} (m : M A) s : (m ≫= fun a => ret a) s = m s.
Proof. rewrite bind_run. by destruct (m s) as [[a|e] s1]. Qed.

Section Frame.

Variable creationRequest : CreationRequest.t.
Variable server : Server.t.

#[local] Abbreviation toJSON_ := (toJSON creationRequest server).

(** [toJSON] is the serialization without transforms, then the transforms. *)
Lemma toJSON_split options s :
  toJSON_ options s
  = match toJSON_ (just_list options) s with
    | (Ok result, s0) => transforms options result s0
    | (Throw e, s0) => (Throw e, s0)
    end.
Proof.
  unfold toJSON, transforms. rewrite !bind_run. simpl.
  rewrite !option_of_just_list. simpl.
  assert (forall (r2 : record) s1,
            (let (o, s2) :=
               (if truthy (option_of options "replayable")
                then removeNonEssentialInformationFrom r2 else ret r2) s1 in
             match o with
             | Ok a =>
                 ((if truthy (option_of options "removeProxies")
                   then removeProxiesFrom a else ret a)
                  ≫= fun result : record => ret result) s2
             | Throw e => (Throw e, s2)
             end)
            = (let (o, s2) :=
                 (if truthy (option_of options "replayable")
                  then removeNonEssentialInformationFrom r2 else ret r2) s1 in
               match o with
               | Ok a =>
                   (if truthy (option_of options "removeProxies")
                    then removeProxiesFrom a else ret a) s2
               | Throw e => (Throw e, s2)
               end)) as Htail.
  { intros r2 s1. destruct (_ s1) as [[a|e] s2]; [|done]. apply bind_ret_r. }
  destruct (truthy (option_of options "list")); simpl.
  - rewrite !bind_run. simpl. rewrite !bind_run. apply Htail.
  - rewrite !bind_run.
    destruct (addDetailsTo creationRequest server _ s) as [[r1|e] s1]; [|done].
    rewrite !bind_run. simpl. rewrite !bind_run. apply Htail.
Qed.

(** The store after the serialization without transforms: the store as it
    was, or as [stubs()] left it. *)
Lemma just_list_store options s :
  let s0 := (toJSON_ (just_list options) s).2 in
  (truthy (option_of options "list") = true -> store s0 = store s)
  /\ (store s0 = store s \/ store s0 = (Server.stubs_stubs server (store s)).2).
Proof.
  unfold toJSON. rewrite ?bind_run. simpl. rewrite !option_of_just_list. simpl.
  destruct (truthy (option_of options "list")); simpl.
  - rewrite ?bind_run. simpl. auto.
  - split; [done|]. rewrite ?bind_run. unfold addDetailsTo. rewrite ?bind_run.
    destruct (object_entries (Server.metadata server) s) as [[entries|e] s1] eqn:He.
    + assert (s1 = s) as -> by (eapply read_only_state, He; apply read_only_object_entries).
      rewrite ?bind_run. unfold collab.
      destruct (Server.stubs_stubs server (store s)) as [[stubs|e] h]; simpl; auto.
    + assert (s1 = s) as -> by (eapply read_only_state, He; apply read_only_object_entries).
      simpl. auto.
Qed.

(** With [list], nothing in the store changes, whether [toJSON] returns or
    throws for want of [result.stubs]. *)
Lemma toJSON_list_store options s :
  truthy (option_of options "list") = true ->
  store (toJSON_ options s).2 = store s.
Proof.
  intros Hlist. rewrite (toJSON_split options s).
  destruct (just_list_store options s) as [Hs0 _]. specialize (Hs0 Hlist).
  destruct (toJSON_ (just_list options) s) as [[r2|e] s0] eqn:E; [|done].
  simpl in Hs0. rewrite <- Hs0.
  assert (r2 !! "stubs" = None) as Hnone.
  { apply toJSON_list_ok in E as (_ & _ & -> & _).
    - by vm_compute.
    - by rewrite option_of_just_list. }
  unfold transforms. rewrite bind_run.
  destruct (truthy (option_of options "replayable")).
  { unfold removeNonEssentialInformationFrom. rewrite bind_run, Hnone. done. }
  simpl. destruct (truthy (option_of options "removeProxies")); [|done].
  unfold removeProxiesFrom. rewrite bind_run, Hnone. done.
Qed.

End Frame.

(** ** Serialization: the replayable record *)

Lemma prop_evolves h0 h v k x :
  evolves h0 h ->
  k <> "matches" -> k <> "_proxyResponseTime" -> k <> "responses" ->
  prop h0 v k = Some x -> prop h v k = Some x.
Proof.
  intros [Harr Hfresh Hobj] ? ? ?. unfold prop.
  destruct v as [| | | | |l|f]; try done.
  destruct (h0 !! l) as [[m0|a]|] eqn:E; [| |done].
  - destruct (Hobj l m0 E) as (m & -> & Hk & _). by rewrite Hk.
  - by rewrite (Harr l a E).
Qed.

Lemma prop_time_evolves h0 h v :
  evolves h0 h ->
  prop h0 v "_proxyResponseTime" = Some VUndefined ->
  prop h v "_proxyResponseTime" = Some VUndefined.
Proof.
  intros [Harr Hfresh Hobj]. unfold prop.
  destruct v as [| | | | |l|f]; try done.
  destruct (h0 !! l) as [[m0|a]|] eqn:E; [| |done].
  - destruct (Hobj l m0 E) as (m & -> & _ & _ & [-> | ->] & _); done.
  - by rewrite (Harr l a E).
Qed.

Lemma prop_matches_evolves h0 h v x :
  evolves h0 h ->
  prop h0 v "matches" = Some x -> truthy x = false ->
  exists x', prop h v "matches" = Some x' /\ truthy x' = false.
Proof.
  intros [Harr Hfresh Hobj]. unfold prop.
  destruct v as [| | | | |l|f]; try (by eauto).
  destruct (h0 !! l) as [[m0|a]|] eqn:E; [| |done].
  - destruct (Hobj l m0 E) as (m & -> & _ & [-> | ->] & _); by eauto.
  - rewrite (Harr l a E). by eauto.
Qed.

Lemma filter_no_proxy_elem h (rs : list value) x :
  x ∈ filter (fun v => carries_proxy h v = false) rs -> x ∈ rs.
Proof. intros Hx. by apply list_elem_of_filter in Hx as [_ ?]. Qed.

Lemma prop_responses_evolves h0 h v responses rs :
  evolves h0 h ->
  prop h0 v "responses" = Some responses -> elems h0 responses = Some rs ->
  exists responses' rs',
    prop h v "responses" = Some responses' /\ elems h responses' = Some rs'
    /\ (rs' = rs \/ rs' = filter (fun x => carries_proxy h0 x = false) rs).
Proof.
  intros [Harr Hfresh Hobj] Hp He.
  apply elems_ref in He as (a & -> & Ha).
  apply prop_ref in Hp as (l & m0 & -> & Hl & Hm0).
  destruct (Hobj l m0 Hl) as (m & Hm & _ & _ & _ & _ & Hprecise).
  destruct (Hprecise a rs Hm0 Ha) as (a' & rs' & Hm' & Ha' & Hcase).
  exists (VRef a'), rs'. simpl. rewrite Hm, Hm', Ha'. done.
Qed.

Lemma response_stripped_evolves h0 h response :
  evolves h0 h -> response_stripped h0 response -> response_stripped h response.
Proof.
  intros Hev (body & Hbody & Htime). exists body. split.
  - by apply (prop_evolves h0).
  - intros Hdef. by apply (prop_time_evolves h0), Htime.
Qed.

Lemma stub_stripped_evolves h0 h stub :
  evolves h0 h -> stub_stripped h0 stub -> stub_stripped h stub.
Proof.
  intros Hev (matches & responses & rs & Hm & Ht & Hr & He & Hall).
  destruct (prop_matches_evolves h0 h stub matches Hev Hm Ht) as (matches' & Hm' & Ht').
  destruct (prop_responses_evolves h0 h stub responses rs Hev Hr He)
    as (responses' & rs' & Hr' & He' & Hcase).
  exists matches', responses', rs'. repeat split; try done.
  apply Forall_forall. intros x Hx.
  apply (response_stripped_evolves h0); [done|].
  rewrite Forall_forall in Hall. apply Hall.
  destruct Hcase as [-> | ->]; [done|]. by apply filter_no_proxy_elem in Hx.
Qed.

(** A loop establishes for every element what each turn establishes for its
    own, if later turns cannot undo it. *)
Lemma for_each_establishes {A} (f : A -> M unit) (P : heap -> A -> Prop) l s s' :
  (forall x, evolving (f x)) ->
  (forall x s s', f x s = (Ok tt, s') -> P (store s') x) ->
  (forall h h' x, evolves h h' -> P h x -> P h' x) ->
  for_each f l s = (Ok tt, s') -> Forall (P (store s')) l.
Proof.
  intros Hev Hf Hmono. revert s. induction l as [|x l IH]; intros s H; [done|].
  simpl in H. apply bind_ok in H as ([] & s1 & Hx & H).
  constructor; [|by eapply IH].
  eapply Hmono; [|by eapply Hf].
  pose proof (evolving_for_each f l Hev s1) as Hl. by rewrite H in Hl.
Qed.

Lemma delete_prop_ok v k s s' :
  delete_prop v k s = (Ok tt, s') -> prop (store s') v k = Some VUndefined.
Proof.
  unfold delete_prop, prop. intros H.
  repeat (case_match; simplify_eq/=); try done;
    rewrite lookup_insert_eq in *; simplify_eq; by rewrite ?lookup_delete_eq.
Qed.

Lemma strip_response_ok response s s' :
  strip_response response s = (Ok tt, s') ->
  response_stripped (store s') response.
Proof.
  unfold strip_response. intros H.
  apply bind_ok in H as (body & s1 & Hb & H). apply get_prop_ok in Hb as [-> Hb].
  destruct (defined body) eqn:Hdef.
  - apply bind_ok in H as (time & s1 & Ht & H). apply get_prop_ok in Ht as [-> Ht].
    destruct (defined time) eqn:Hdt.
    + pose proof (evolving_delete_prop body "_proxyResponseTime" (or_intror eq_refl) s)
        as Hev.
      rewrite H in Hev. simpl in Hev.
      exists body. split; [by apply (prop_evolves (store s))|].
      intros _. by apply (delete_prop_ok _ _ s).
    + unfold ret in H. simplify_eq. exists body. split; [done|].
      intros _. by destruct time.
  - unfold ret in H. simplify_eq. exists body. split; [done|].
    intros Hd. congruence.
Qed.

Lemma strip_stub_ok stub s s' :
  strip_stub stub s = (Ok tt, s') -> stub_stripped (store s') stub.
Proof.
  unfold strip_stub. intros H.
  apply bind_ok in H as (matches & s1 & Hm & H). apply get_prop_ok in Hm as [-> Hm].
  apply bind_ok in H as ([] & s1 & Hdel & H).
  assert (evolves (store s) (store s1)
          /\ exists x, prop (store s1) stub "matches" = Some x /\ truthy x = false)
    as [Hev1 (x & Hx & Htx)].
  { destruct (truthy matches) eqn:Htm.
    - split.
      + pose proof (evolving_delete_prop stub "matches" (or_introl eq_refl) s) as Hev.
        by rewrite Hdel in Hev.
      + exists VUndefined. split; [|done]. by apply (delete_prop_ok _ _ s).
    - unfold ret in Hdel. simplify_eq. split; [apply evolves_refl|]. eauto. }
  apply bind_ok in H as (responses & s2 & Hr & H). apply get_prop_ok in Hr as [-> Hr].
  apply bind_ok in H as (rs & s2 & He & H). apply array_elems_ok in He as [-> He].
  assert (Forall (response_stripped (store s')) rs) as Hall.
  { eapply (for_each_establishes strip_response response_stripped); [| | |exact H].
    - apply evolving_strip_response.
    - apply strip_response_ok.
    - intros h h' y. apply response_stripped_evolves. }
  assert (evolves (store s1) (store s')) as Hev2.
  { pose proof (evolving_for_each strip_response rs evolving_strip_response s1) as Hl.
    by rewrite H in Hl. }
  destruct (prop_matches_evolves _ _ stub x Hev2 Hx Htx) as (x' & Hx' & Htx').
  destruct (prop_responses_evolves _ _ stub responses rs Hev2 Hr He)
    as (responses' & rs' & Hr' & He' & Hcase).
  exists x', responses', rs'. repeat split; try done.
  apply Forall_forall. intros y Hy. rewrite Forall_forall in Hall. apply Hall.
  destruct Hcase as [-> | ->]; [done|]. by apply filter_no_proxy_elem in Hy.
Qed.


Lemma elems_evolves h0 h v rs : evolves h0 h -> elems h0 v = Some rs -> elems h v = Some rs.
Proof.
  intros [Harr _ _] He. apply elems_ref in He as (a & -> & Ha).
  simpl. by rewrite (Harr a rs Ha).
Qed.

Lemma array_elems_elems v s rs :
  elems (store s) v = Some rs -> array_elems v s = (Ok rs, s).
Proof.
  intros He. apply elems_ref in He as (a & -> & Ha). unfold array_elems. by rewrite Ha.
Qed.

Section Replayable.

Variable creationRequest : CreationRequest.t.
Variable server : Server.t.

#[local] Abbreviation toJSON_ := (toJSON creationRequest server).

(** The serialization without transforms has no [stubs] in list mode and the
    value that [stubs()] returned otherwise. *)
Lemma just_list_stubs options s base s0 :
  toJSON_ (just_list options) s = (Ok base, s0) ->
  base !! "stubs" = None \/ exists snapshot, base !! "stubs" = Some (FValue snapshot).
Proof.
  intros H. apply toJSON_ok in H as (r1 & s1 & r3 & s2 & H1 & H3 & H4).
  rewrite !option_of_just_list in *. simpl in *.
  destruct H3 as [-> ->]. destruct H4 as [-> ->].
  destruct (truthy (option_of options "list")).
  - destruct H1 as [-> ->]. left. by vm_compute.
  - apply addDetailsTo_ok in H1 as (entries & stubs & _ & _ & _ & ->).
    right. exists stubs. rewrite lookup_insert_ne by done. by rewrite lookup_insert_eq.
Qed.

(** What [removeNonEssentialInformationFrom] does when it returns. *)
Lemma removeNonEssentialInformationFrom_strips base s0 r3 s2 :
  removeNonEssentialInformationFrom base s0 = (Ok r3, s2) ->
  exists all,
    field_elems (base !! "stubs") s0 = (Ok all, s0)
    /\ evolves (store s0) (store s2)
    /\ Forall (stub_stripped (store s2)) all
    /\ r3 = delete "_links" (delete "requests" (delete "numberOfRequests" base)).
Proof.
  intros H. pose proof (removeNonEssentialInformationFrom_ok _ _ _ _ H) as Hr3.
  pose proof (evolving_removeNonEssentialInformationFrom base s0) as Hev.
  rewrite H in Hev. simpl in Hev.
  unfold removeNonEssentialInformationFrom in H.
  apply bind_ok in H as (all & s1 & Hall & H).
  assert (s1 = s0) as -> by (eapply read_only_state, Hall; apply read_only_field_elems).
  apply bind_ok in H as ([] & s3 & Hloop & H).
  unfold mret, M_ret, ret in H. simplify_eq.
  exists all. split; [done|]. split; [done|]. split; [|done].
  eapply (for_each_establishes strip_stub stub_stripped); [| | |exact Hloop].
  - apply evolving_strip_stub.
  - apply strip_stub_ok.
  - intros h h' y. apply stub_stripped_evolves.
Qed.



End Replayable.

(** ** Serialization: the record without proxies *)

Lemma responses_of_evolves h0 h stub rs0 :
  evolves h0 h ->
  responses_of h0 stub = Some rs0 ->
  exists rs,
    responses_of h stub = Some rs
    /\ (rs = rs0 \/ rs = filter (fun x => carries_proxy h0 x = false) rs0).
Proof.
  unfold responses_of. intros Hev H.
  destruct (prop h0 stub "responses") as [responses|] eqn:Hp; [|done].
  destruct (prop_responses_evolves _ _ _ _ _ Hev Hp H) as (r' & rs' & -> & He & Hcase).
  eauto.
Qed.

Lemma Forall_no_proxy_filter h (rs : list value) :
  Forall (fun x => carries_proxy h x = false)
    (filter (fun x => carries_proxy h x = false) rs).
Proof. apply Forall_forall. intros x Hx. by apply list_elem_of_filter in Hx as [? _]. Qed.

Lemma filter_no_proxy_all h (rs : list value) :
  Forall (fun x => carries_proxy h x = false) rs ->
  filter (fun x => carries_proxy h x = false) rs = rs.
Proof.
  induction 1 as [|x l Hx Hl IH]; [done|].
  rewrite filter_cons, decide_True by done. by rewrite IH.
Qed.

Lemma stub_filtered_evolves h0 h stub :
  evolves h0 h -> stub_filtered h0 stub -> stub_filtered h stub.
Proof.
  intros Hev (rs0 & Hrs0 & Hall).
  destruct (responses_of_evolves _ _ _ _ Hev Hrs0) as (rs & Hrs & Hcase).
  exists rs. split; [done|].
  assert (rs = rs0) as ->.
  { destruct Hcase as [-> | ->]; [done|]. by apply filter_no_proxy_all. }
  eapply Forall_impl; [exact Hall|]. intros x Hx. simpl.
  by rewrite (carries_proxy_evolves h0 h).
Qed.

Lemma filter_responses_filters stub s s' :
  filter_responses stub s = (Ok tt, s') -> stub_filtered (store s') stub.
Proof.
  intros H.
  pose proof (evolving_filter_responses stub s) as Hev. rewrite H in Hev. simpl in Hev.
  apply filter_responses_ok in H as (l & m & a & rs & -> & Hl & Hm & Ha & ->).
  assert (store s !! fresh (dom (store s)) = None) as Hfresh
    by (apply not_elem_of_dom, is_fresh).
  exists (filter (fun v => carries_proxy (store s) v = false) rs). split.
  - unfold responses_of, prop, elems. simpl.
    rewrite lookup_insert_eq, lookup_insert_eq. simpl.
    rewrite lookup_insert_ne by congruence. by rewrite lookup_insert_eq.
  - eapply Forall_impl; [apply Forall_no_proxy_filter|]. intros x Hx. simpl in *.
    by rewrite (carries_proxy_evolves _ _ x Hev).
Qed.

Lemma has_responses_ok stub s rs :
  responses_of (store s) stub = Some rs ->
  has_responses stub s = (Ok (has_responses_in (store s) stub), s).
Proof.
  unfold has_responses_in. intros H. rewrite H.
  unfold responses_of in H.
  destruct (prop (store s) stub "responses") as [responses|] eqn:Hp; [|done].
  apply elems_ref in H as (a & -> & Ha).
  unfold has_responses. rewrite bind_run.
  assert (get_prop stub "responses" s = (Ok (VRef a), s)) as ->.
  { apply prop_ref in Hp as (l & m & -> & Hl & Hm).
    unfold get_prop. by rewrite Hl, Hm. }
  unfold length_positive. rewrite Ha. destruct rs; [done|].
  by rewrite bool_decide_eq_true_2 by (simpl; lia).
Qed.

Lemma filter_elems_filter (p : value -> M bool) (f : value -> bool) l s kept s' :
  (forall x, x ∈ l -> p x s = (Ok (f x), s)) ->
  filter_elems p l s = (Ok kept, s') ->
  s' = s /\ kept = filter (fun x => f x = true) l.
Proof.
  revert kept. induction l as [|y l IH]; intros kept Hp H; simpl in H.
  - unfold ret in H. by simplify_eq.
  - apply bind_ok in H as (b & s1 & Hb & H).
    apply bind_ok in H as (rest & s2 & Hrest & H).
    unfold mret, M_ret, ret in H. simplify_eq.
    rewrite (Hp y) in Hb by apply list_elem_of_here. simplify_eq.
    destruct (IH rest) as [-> ->]; [|done|].
    { intros x Hx. apply Hp. by apply list_elem_of_further. }
    split; [done|]. rewrite filter_cons.
    destruct (f y); [by rewrite decide_True|by rewrite decide_False].
Qed.

Lemma filter_no_proxy_none h (rs : list value) :
  Forall (fun x => carries_proxy h x = true) rs ->
  filter (fun x => carries_proxy h x = false) rs = [].
Proof.
  induction 1 as [|x l Hx Hl IH]; [done|].
  rewrite filter_cons, decide_False by congruence. done.
Qed.

(** What [removeProxiesFrom] does when it returns. *)
Lemma removeProxiesFrom_filters r3 s2 r s' all :
  removeProxiesFrom r3 s2 = (Ok r, s') ->
  field_elems (r3 !! "stubs") s2 = (Ok all, s2) ->
  evolves (store s2) (store s')
  /\ Forall (stub_filtered (store s')) all
  /\ r = <["stubs" :=
            FArray (filter (fun stub => has_responses_in (store s') stub = true) all)]> r3.
Proof.
  intros H Hall.
  pose proof (evolving_removeProxiesFrom r3 s2) as Hev. rewrite H in Hev. simpl in Hev.
  unfold removeProxiesFrom in H.
  apply bind_ok in H as (stubs1 & s1 & H1 & H). rewrite Hall in H1. simplify_eq.
  apply bind_ok in H as ([] & s3 & Hloop & H).
  apply bind_ok in H as (stubs2 & s4 & H2 & H).
  assert (s4 = s3) as -> by (eapply read_only_state, H2; apply read_only_field_elems).
  apply bind_ok in H as (kept & s5 & Hkept & H).
  unfold mret, M_ret, ret in H. simplify_eq.
  assert (Forall (stub_filtered (store s3)) stubs1) as Hfiltered.
  { eapply (for_each_establishes filter_responses stub_filtered); [| | |exact Hloop].
    - apply evolving_filter_responses.
    - apply filter_responses_filters.
    - intros h h' y. apply stub_filtered_evolves. }
  assert (stubs2 = stubs1) as ->.
  { destruct (r3 !! "stubs") as [[v| |l|]|]; simpl in *; try done.
    - apply array_elems_ok in Hall as [_ Hall]. apply array_elems_ok in H2 as [_ H2].
      pose proof (evolving_for_each filter_responses stubs1 evolving_filter_responses s1)
        as Hev'.
      rewrite Hloop in Hev'. simpl in Hev'.
      apply (elems_evolves _ _ _ _ Hev') in Hall. congruence.
    - unfold ret in *. congruence. }
  apply (filter_elems_filter _ (has_responses_in (store s3))) in Hkept as [-> ->].
  - done.
  - intros x Hx. rewrite Forall_forall in Hfiltered.
    destruct (Hfiltered x Hx) as (rs & Hrs & _). by apply (has_responses_ok _ _ rs).
Qed.

Section RemoveProxies.

Variable creationRequest : CreationRequest.t.
Variable server : Server.t.

#[local] Abbreviation toJSON_ := (toJSON creationRequest server).

(** C8: when [toJSON] returns a record under [removeProxies], the stubs of
    the record are those of the stubs returned by [stubs()] that are left
    with a response; each stub that [stubs()] returned now has for responses
    the responses it had, without those that carry a [proxy] field; so no
    stub of the record has a response that carries [proxy], and a stub whose
    responses all carried [proxy] is not in the record. *)
Theorem record_without_proxies options s r s' :
  toJSON_ options s = (Ok r, s') ->
  truthy (option_of options "removeProxies") = true ->
  exists base s0 snapshot all kept,
    toJSON_ (just_list options) s = (Ok base, s0)
    /\ base !! "stubs" = Some (FValue snapshot)
    /\ elems (store s0) snapshot = Some all
    /\ r !! "stubs" = Some (FArray kept)
    /\ kept = filter (fun stub => has_responses_in (store s') stub = true) all
    /\ Forall (fun stub =>
                 exists rs, responses_of (store s') stub = Some rs /\ rs <> []
                            /\ Forall (fun x => carries_proxy (store s') x = false) rs)
         kept
    /\ (forall stub rs0,
          stub ∈ all -> responses_of (store s0) stub = Some rs0 ->
          responses_of (store s') stub
          = Some (filter (fun x => carries_proxy (store s0) x = false) rs0)
          /\ (Forall (fun x => carries_proxy (store s0) x = true) rs0 -> stub ∉ kept)).
Proof.
  intros H Hrem. rewrite (toJSON_split creationRequest server options s) in H.
  destruct (toJSON_ (just_list options) s) as [[base|e] s0] eqn:Hbase; [|done].
  unfold transforms in H. rewrite Hrem in H.
  apply bind_ok in H as (r3 & s2 & H3 & H4).
  assert (exists snapshot all,
            base !! "stubs" = Some (FValue snapshot)
            /\ elems (store s0) snapshot = Some all
            /\ evolves (store s0) (store s2)
            /\ field_elems (r3 !! "stubs") s2 = (Ok all, s2))
    as (snapshot & all & Hsnap & Hall & Hev & Hall2).
  { destruct (just_list_stubs _ _ _ _ _ _ Hbase) as [Hnone|[snapshot Hsnap]].
    - exfalso. destruct (truthy (option_of options "replayable")).
      + unfold removeNonEssentialInformationFrom in H3.
        apply bind_ok in H3 as (? & ? & Hf & _). by rewrite Hnone in Hf.
      + unfold ret in H3. simplify_eq. unfold removeProxiesFrom in H4.
        apply bind_ok in H4 as (? & ? & Hf & _). by rewrite Hnone in Hf.
    - exists snapshot. destruct (truthy (option_of options "replayable")).
      + apply removeNonEssentialInformationFrom_strips in H3
          as (all & Hall & Hev & _ & ->).
        rewrite Hsnap in Hall. simpl in Hall. apply array_elems_ok in Hall as [_ Hall].
        exists all. split; [done|]. split; [done|]. split; [done|].
        rewrite !lookup_delete_ne by done. rewrite Hsnap. simpl.
        apply array_elems_elems. by apply (elems_evolves (store s0)).
      + unfold ret in H3. simplify_eq. unfold removeProxiesFrom in H4.
        pose proof H4 as H4'.
        apply bind_ok in H4' as (all & s1 & Hf & _).
        assert (s1 = s2) as -> by (eapply read_only_state, Hf; apply read_only_field_elems).
        exists all. split; [done|]. split; [|split; [apply evolves_refl|done]].
        rewrite Hsnap in Hf. simpl in Hf. by apply array_elems_ok in Hf as [_ Hf]. }
  apply (removeProxiesFrom_filters _ _ _ _ all) in H4 as (Hev' & Hfiltered & ->); [|done].
  pose proof (evolves_trans _ _ _ Hev Hev') as Hev0.
  set (kept := filter (fun stub => has_responses_in (store s') stub = true) all).
  exists base, s0, snapshot, all, kept.
  split; [done|]. split; [done|]. split; [done|].
  split; [by rewrite lookup_insert_eq|]. split; [done|]. split.
  - apply Forall_forall. intros stub Hstub.
    apply list_elem_of_filter in Hstub as [Hhas Hin].
    rewrite Forall_forall in Hfiltered.
    destruct (Hfiltered stub Hin) as (rs & Hrs & Hno).
    exists rs. split; [done|]. split; [|done].
    unfold has_responses_in in Hhas. rewrite Hrs in Hhas. by destruct rs.
  - intros stub rs0 Hin Hrs0.
    destruct (responses_of_evolves _ _ _ _ Hev0 Hrs0) as (rs & Hrs & Hcase).
    rewrite Forall_forall in Hfiltered.
    destruct (Hfiltered stub Hin) as (rs' & Hrs' & Hno).
    assert (rs' = rs) as -> by congruence.
    assert (rs = filter (fun x => carries_proxy (store s0) x = false) rs0) as ->.
    { destruct Hcase as [-> | ->]; [|done]. symmetry. apply filter_no_proxy_all.
      eapply Forall_impl; [exact Hno|]. intros x Hx. simpl in *.
      by rewrite <- (carries_proxy_evolves (store s0) (store s')). }
    split; [done|]. intros Hproxies Hkept.
    apply list_elem_of_filter in Hkept as [Hhas _].
    unfold has_responses_in in Hhas. rewrite Hrs in Hhas.
    by rewrite filter_no_proxy_none in Hhas.
Qed.

End RemoveProxies.

(** ** The claims on the demo *)

(** In the demo, the promise of the first request is fulfilled with a wrapped
    response, after a look at the imposter: the match is recorded once, with
    the response inside.  The promise of a proxy response is fulfilled after
    the imposter was stopped: the match is recorded once, on the response. *)
Lemma match_recorded_once_demo :
  calls (Demo.run Demo.listening
           [Request [("data", JStr "ping")] 1000; ToJSON None; Fulfilled 0 (VRef 16)])
  = [ConfigRecordMatch (VRef 14) (VRef 15)]
  /\ calls (Demo.run Demo.listening
              [ProxyResponse (VRef 15) (VStr "key"); Stop; Fulfilled 0 (VRef 18)])
     = [ResponseRecordMatch (VRef 18)].
Proof.
  destruct (match_recorded_once Demo.config Demo.creationRequest Demo.server
              Demo.imposterState Demo.Date_toJSON eq_refl) as [Hrequest Hproxy].
  split.
  - pose (called := getResponseFor Demo.config Demo.creationRequest Demo.server
                      Demo.imposterState Demo.Date_toJSON [("data", JStr "ping")] 1000
                      Demo.listening).
    assert (getResponseFor Demo.config Demo.creationRequest Demo.server
              Demo.imposterState Demo.Date_toJSON [("data", JStr "ping")] 1000
              Demo.listening = (Ok 0, called.2)) as Hcall by (vm_compute; reflexivity).
    destruct (Hrequest _ _ _ _ _ [ToJSON None] Hcall)
      as (responseConfig & h & Hmatch & _ & Hfulfil).
    { repeat constructor. simpl. tauto. }
    assert (responseConfig = VRef 14) as -> by (vm_compute in Hmatch; congruence).
    destruct (Hfulfil 16 {["response" := VRef 15]} "recordMatch") as (Hcalls & _).
    + vm_compute. reflexivity.
    + reflexivity.
    + vm_compute. reflexivity.
    + etrans; [exact Hcalls|]. vm_compute. reflexivity.
  - pose (called := getProxyResponseFor Demo.server (VRef 15) (VStr "key") Demo.listening).
    assert (getProxyResponseFor Demo.server (VRef 15) (VStr "key") Demo.listening
            = (Ok 0, called.2)) as Hcall by (vm_compute; reflexivity).
    destruct (Hproxy _ _ _ _ _ [Stop] Hcall) as (_ & Hfulfil).
    { repeat constructor. simpl. tauto. }
    destruct (Hfulfil (VRef 18) "recordMatch") as (Hcalls & _).
    + vm_compute. reflexivity.
    + etrans; [exact Hcalls|]. vm_compute. reflexivity.
Defined.


(** In the demo, the record without proxies has one stub left, the one that
    had a literal response. *)
Lemma record_without_proxies_demo :
  exists r s',
    Demo.toJSON (Some {["removeProxies" := VBool true]}) Demo.listening = (Ok r, s')
    /\ r !! "stubs" = Some (FArray [VRef 1])
    /\ exists kept,
         r !! "stubs" = Some (FArray kept)
         /\ Forall (fun stub =>
                      exists rs, responses_of (store s') stub = Some rs /\ rs <> []
                                 /\ Forall (fun x => carries_proxy (store s') x = false) rs)
              kept.
Proof.
  pose (options := Some ({["removeProxies" := VBool true]} : gmap string value)).
  pose (run := toJSON Demo.creationRequest Demo.server options Demo.listening).
  pose (r := match run.1 with Ok r => r | Throw _ => ∅ end).
  assert (toJSON Demo.creationRequest Demo.server options Demo.listening = (Ok r, run.2))
    as H by (vm_compute; reflexivity).
  exists r, run.2. split; [exact H|]. split; [vm_compute; reflexivity|].
  destruct (record_without_proxies Demo.creationRequest Demo.server options
              Demo.listening r run.2 H eq_refl)
    as (base & s0 & snapshot & all & kept & _ & _ & _ & Hk & _ & Hall & _).
  exists kept. split; [exact Hk|exact Hall].
Defined.

(** ** Serialization: which objects it writes to *)

Lemma kept_or_refl F h : kept_or F h h.
Proof. intros l c Hl. by left. Qed.

Lemma kept_or_trans F h0 h1 h2 :
  kept_or F h0 h1 -> kept_or F h1 h2 -> kept_or F h0 h2.
Proof.
  intros H01 H12 l c Hl. destruct (H01 l c Hl) as [H1|HF]; [|by right].
  by apply H12.
Qed.

Lemma kept_or_mono (F G : nat -> Prop) h0 h :
  (forall l, F l -> G l) -> kept_or F h0 h -> kept_or G h0 h.
Proof. intros HFG H l c Hl. destruct (H l c Hl); auto. Qed.

Lemma thins_refl h : thins h h.
Proof. intros l. destruct (h !! l) as [[m|a]|]; eauto. Qed.

Lemma thins_trans h0 h1 h2 : thins h0 h1 -> thins h1 h2 -> thins h0 h2.
Proof.
  intros H01 H12 l. specialize (H01 l). specialize (H12 l).
  destruct (h0 !! l) as [[m0|a]|].
  - destruct H01 as (m1 & Hl1 & Hk1). rewrite Hl1 in H12.
    destruct H12 as (m2 & Hl2 & Hk2). exists m2. split; [done|].
    intros k ? ?. rewrite Hk2, Hk1; done.
  - by rewrite H01 in H12.
  - by rewrite H01 in H12.
Qed.

Lemma thins_prop h0 h v k :
  thins h0 h -> k <> "matches" -> k <> "_proxyResponseTime" ->
  prop h v k = prop h0 v k.
Proof.
  intros Hth ? ?. destruct v as [| | | | |l|f]; try done. simpl.
  specialize (Hth l). destruct (h0 !! l) as [[m0|a]|].
  - destruct Hth as (m & -> & Hk). by rewrite Hk.
  - by rewrite Hth.
  - by rewrite Hth.
Qed.

Lemma thins_elems h0 h v : thins h0 h -> elems h v = elems h0 v.
Proof.
  intros Hth. destruct v as [| | | | |l|f]; try done. simpl.
  specialize (Hth l). destruct (h0 !! l) as [[m0|a]|].
  - by destruct Hth as (m & -> & _).
  - by rewrite Hth.
  - by rewrite Hth.
Qed.

Lemma thins_responses_of h0 h stub :
  thins h0 h -> responses_of h stub = responses_of h0 stub.
Proof.
  intros Hth. unfold responses_of. rewrite (thins_prop h0 h) by done.
  destruct (prop h0 stub "responses"); [|done]. by apply thins_elems.
Qed.

(** What [delete v.k] does to the store, for the two names that
    [removeNonEssentialInformationFrom] deletes. *)
Lemma delete_prop_within v k s :
  k = "matches" \/ k = "_proxyResponseTime" ->
  let s' := (delete_prop v k s).2 in
  thins (store s) (store s') /\ kept_or (fun l => v = VRef l) (store s) (store s').
Proof.
  intros Hk. unfold delete_prop.
  destruct v as [| | | | |l0|f]; simpl;
    try (split; [apply thins_refl|apply kept_or_refl]).
  destruct (store s !! l0) as [[m0|a0]|] eqn:E; simpl;
    try (split; [apply thins_refl|apply kept_or_refl]).
  split.
  - intros l. destruct (decide (l = l0)) as [->|Hne].
    + rewrite lookup_insert_eq, E. eexists. split; [done|].
      intros k0 ? ?. apply lookup_delete_ne. by destruct Hk as [-> | ->].
    + rewrite lookup_insert_ne by done. destruct (store s !! l) as [[m|a]|]; eauto.
  - intros l c Hl. destruct (decide (l = l0)) as [->|Hne]; [by right|].
    left. by rewrite lookup_insert_ne.
Qed.

(** A loop keeps what each of its turns keeps. *)
Lemma for_each_invariant {A} (I : state -> Prop) (f : A -> M unit) l s :
  (forall x, x ∈ l -> forall s, I s -> I (f x s).2) ->
  I s -> I (for_each f l s).2.
Proof.
  revert s. induction l as [|x l IH]; intros s Hf Hs; [done|].
  simpl. rewrite bind_run.
  pose proof (Hf x (list_elem_of_here _ _) s Hs) as Hx.
  destruct (f x s) as [[[]|e] s1]; [|done].
  apply IH; [|done]. intros y Hy. apply Hf. by apply list_elem_of_further.
Qed.

Lemma strip_response_within h0 (F : nat -> Prop) response s :
  (forall l, prop h0 response "is" = Some (VRef l) -> F l) ->
  thins h0 (store s) /\ kept_or F h0 (store s) ->
  let s' := (strip_response response s).2 in
  thins h0 (store s') /\ kept_or F h0 (store s').
Proof.
  intros HF [Hth Hk]. unfold strip_response. rewrite bind_run.
  destruct (get_prop response "is" s) as [[body|e] s1] eqn:Hb.
  2:{ apply read_only_state in Hb as ->; [done|apply read_only_get_prop]. }
  apply get_prop_ok in Hb as [-> Hb]. rewrite (thins_prop h0) in Hb by done.
  destruct (defined body); [|done]. rewrite bind_run.
  destruct (get_prop body "_proxyResponseTime" s) as [[time|e] s1] eqn:Ht.
  2:{ apply read_only_state in Ht as ->; [done|apply read_only_get_prop]. }
  apply get_prop_ok in Ht as [-> _].
  destruct (defined time); [|done].
  destruct (delete_prop_within body "_proxyResponseTime" s (or_intror eq_refl))
    as [Hth' Hk'].
  split; [by eapply thins_trans|].
  eapply kept_or_trans; [done|]. eapply kept_or_mono; [|done].
  intros l ->. by apply HF.
Qed.

Lemma strip_stub_within h0 all stub s :
  stub ∈ all ->
  thins h0 (store s) /\ kept_or (touched h0 all) h0 (store s) ->
  let s' := (strip_stub stub s).2 in
  thins h0 (store s') /\ kept_or (touched h0 all) h0 (store s').
Proof.
  intros Hin [Hth Hk]. unfold strip_stub. rewrite bind_run.
  destruct (get_prop stub "matches" s) as [[matches|e] s1] eqn:Hm.
  2:{ apply read_only_state in Hm as ->; [done|apply read_only_get_prop]. }
  apply get_prop_ok in Hm as [-> _]. rewrite bind_run.
  assert (let s1 := ((if truthy matches then delete_prop stub "matches" else ret tt) s).2 in
          thins h0 (store s1) /\ kept_or (touched h0 all) h0 (store s1)) as Hs1.
  { destruct (truthy matches); [|done].
    destruct (delete_prop_within stub "matches" s (or_introl eq_refl)) as [Hth' Hk'].
    split; [by eapply thins_trans|].
    eapply kept_or_trans; [done|]. eapply kept_or_mono; [|done].
    intros l ->. by left. }
  destruct ((if truthy matches then delete_prop stub "matches" else ret tt) s)
    as [[[]|e] s1]; [|done].
  simpl in Hs1. destruct Hs1 as [Hth1 Hk1]. rewrite bind_run.
  destruct (get_prop stub "responses" s1) as [[responses|e] s2] eqn:Hr.
  2:{ apply read_only_state in Hr as ->; [done|apply read_only_get_prop]. }
  apply get_prop_ok in Hr as [-> Hr]. rewrite (thins_prop h0) in Hr by done.
  rewrite bind_run.
  destruct (array_elems responses s1) as [[rs|e] s2] eqn:He.
  2:{ apply read_only_state in He as ->; [done|apply read_only_array_elems]. }
  apply array_elems_ok in He as [-> He]. rewrite (thins_elems h0) in He by done.
  apply (for_each_invariant
           (fun s => thins h0 (store s) /\ kept_or (touched h0 all) h0 (store s)));
    [|done].
  intros response Hresponse s2 Hs2. apply strip_response_within; [|done].
  intros l Hl. right. exists stub, rs, response. repeat split; try done.
  unfold responses_of. by rewrite Hr.
Qed.

Lemma removeNonEssentialInformationFrom_within base s0 snapshot all :
  base !! "stubs" = Some (FValue snapshot) ->
  elems (store s0) snapshot = Some all ->
  let s2 := (removeNonEssentialInformationFrom base s0).2 in
  thins (store s0) (store s2)
  /\ kept_or (touched (store s0) all) (store s0) (store s2).
Proof.
  intros Hsnap Hall. unfold removeNonEssentialInformationFrom.
  rewrite bind_run, Hsnap. simpl. rewrite (array_elems_elems _ _ _ Hall).
  rewrite bind_run.
  pose proof (for_each_invariant
                (fun s => thins (store s0) (store s)
                          /\ kept_or (touched (store s0) all) (store s0) (store s))
                strip_stub all s0) as Hloop.
  destruct (for_each strip_stub all s0) as [[[]|e] s2]; simpl in *; apply Hloop;
    try (split; [apply thins_refl|apply kept_or_refl]);
    intros stub Hstub s Hs; by apply strip_stub_within.
Qed.

Lemma filter_responses_within stub s :
  kept_or (fun l => stub = VRef l) (store s) (store (filter_responses stub s).2).
Proof.
  destruct (filter_responses stub s) as [[[]|e] s'] eqn:H; simpl.
  - apply filter_responses_ok in H as (l & m & a & rs & -> & Hl & Hm & Ha & ->).
    simpl. intros l' c Hl'. destruct (decide (l' = l)) as [->|Hne]; [by right|].
    left. rewrite lookup_insert_ne by done. rewrite lookup_insert_ne; [done|].
    intros <-. assert (store s !! fresh (dom (store s)) = None) as Hfresh
      by (apply not_elem_of_dom, is_fresh).
    congruence.
  - apply filter_responses_throw in H as ->. apply kept_or_refl.
Qed.

Lemma removeProxiesFrom_within (F : nat -> Prop) r3 s2 all :
  field_elems (r3 !! "stubs") s2 = (Ok all, s2) ->
  (forall l, VRef l ∈ all -> F l) ->
  kept_or F (store s2) (store (removeProxiesFrom r3 s2).2).
Proof.
  intros Hall HF. unfold removeProxiesFrom. rewrite bind_run, Hall. rewrite bind_run.
  pose proof (for_each_invariant (fun s => kept_or F (store s2) (store s))
                filter_responses all s2) as Hloop.
  assert (kept_or F (store s2) (store (for_each filter_responses all s2).2)) as Hs3.
  { apply Hloop; [|apply kept_or_refl]. intros stub Hstub s Hs.
    eapply kept_or_trans; [done|]. eapply kept_or_mono; [|apply filter_responses_within].
    intros l ->. by apply HF. }
  destruct (for_each filter_responses all s2) as [[[]|e] s3]; [|done].
  simpl in Hs3. rewrite bind_run.
  destruct (field_elems (r3 !! "stubs") s3) as [[stubs'|e] s4] eqn:H2.
  2:{ apply read_only_state in H2 as ->; [done|apply read_only_field_elems]. }
  apply read_only_state in H2 as ->; [|apply read_only_field_elems].
  rewrite bind_run.
  destruct (filter_elems has_responses stubs' s3) as [[kept|e] s4] eqn:H3.
  - apply read_only_state in H3 as ->;
      [done|apply read_only_filter_elems, read_only_has_responses].
  - apply read_only_state in H3 as ->;
      [done|apply read_only_filter_elems, read_only_has_responses].
Qed.

(** The transforms write to the stubs that [stubs()] returned and to the
    bodies of their responses, and to no other object. *)
Lemma transforms_within options base s0 snapshot all :
  base !! "stubs" = Some (FValue snapshot) ->
  elems (store s0) snapshot = Some all ->
  kept_or (touched (store s0) all) (store s0) (store (transforms options base s0).2).
Proof.
  intros Hsnap Hall. unfold transforms. rewrite bind_run.
  assert (forall r3 s2,
            r3 !! "stubs" = Some (FValue snapshot) ->
            thins (store s0) (store s2) ->
            kept_or (touched (store s0) all) (store s0) (store s2) ->
            kept_or (touched (store s0) all) (store s0)
              (store ((if truthy (option_of options "removeProxies")
                       then removeProxiesFrom r3 else ret r3) s2).2)) as Hsecond.
  { intros r3 s2 Hr3 Hth Hk. destruct (truthy (option_of options "removeProxies")); [|done].
    eapply kept_or_trans; [done|]. apply (removeProxiesFrom_within _ _ _ all).
    - rewrite Hr3. simpl. apply array_elems_elems. by rewrite (thins_elems (store s0)).
    - intros l Hl. by left. }
  destruct (truthy (option_of options "replayable")).
  - destruct (removeNonEssentialInformationFrom_within base s0 snapshot all Hsnap Hall)
      as [Hth Hk].
    pose proof (removeNonEssentialInformationFrom_ok base s0) as Hr3.
    destruct (removeNonEssentialInformationFrom base s0) as [[r3|e] s2]; [|done].
    apply Hsecond; [|done|done].
    rewrite (Hr3 r3 s2 eq_refl). by rewrite !lookup_delete_ne.
  - simpl. apply Hsecond; [done|apply thins_refl|apply kept_or_refl].
Qed.

Lemma array_elems_none v s :
  elems (store s) v = None -> array_elems v s = (Throw TypeError, s).
Proof.
  unfold elems, array_elems. intros H. repeat (case_match; simplify_eq); done.
Qed.

Section Footprint.

Variable creationRequest : CreationRequest.t.
Variable server : Server.t.

#[local] Abbreviation toJSON_ := (toJSON creationRequest server).

(** What [toJSON] writes to.  It changes neither the request counter nor the
    recorded-request log, nor the awaited promises nor the trace of recorded
    matches.  Without the transforms the store is left as it was or as
    [stubs()] left it, and with [list] as it was.  The transforms then work
    on what [stubs()] returned: no array is changed, a new object is an
    array, and an object is changed only by the removal of [matches] or
    [_proxyResponseTime] or by the replacement of [responses] with a
    filtered array; the objects so changed are stubs that [stubs()] returned
    or the [is] of their responses. *)
Lemma serialization_footprint (options : option (gmap string value)) (s : state) :
  let s' := (toJSON_ options s).2 in
  let s0 := (toJSON_ (just_list options) s).2 in
  (numberOfRequests s' = numberOfRequests s /\ requests s' = requests s
   /\ inflight s' = inflight s /\ calls s' = calls s)
  /\ (store s0 = store s \/ store s0 = (Server.stubs_stubs server (store s)).2)
  /\ (truthy (option_of options "list") = true -> store s' = store s)
  /\ (truthy (option_of options "replayable") = false ->
      truthy (option_of options "removeProxies") = false ->
      store s' = store s0)
  /\ evolves (store s0) (store s')
  /\ (forall base s1 snapshot,
        toJSON_ (just_list options) s = (Ok base, s1) ->
        base !! "stubs" = Some (FValue snapshot) ->
        match elems (store s0) snapshot with
        | Some all => kept_or (touched (store s0) all) (store s0) (store s')
        | None => store s' = store s0
        end).
Proof.
  intros s' s0. split; [|split; [|split; [|split; [|split]]]].
  - subst s'. rewrite (store_only_toJSON creationRequest server options s). done.
  - apply just_list_store.
  - apply toJSON_list_store.
  - intros Hrep Hrem. subst s' s0. rewrite (toJSON_split _ _ options s).
    destruct (toJSON_ (just_list options) s) as [[r2|e] s1]; [|done].
    unfold transforms. rewrite bind_run, Hrep, Hrem. done.
  - subst s' s0. rewrite (toJSON_split _ _ options s).
    destruct (toJSON_ (just_list options) s) as [[r2|e] s1]; [|apply evolves_refl].
    apply evolving_transforms.
  - intros base s1 snapshot Hbase Hsnap. subst s' s0.
    rewrite (toJSON_split _ _ options s), Hbase. simpl.
    destruct (elems (store s1) snapshot) as [all|] eqn:Hall.
    + by apply (transforms_within options base s1 snapshot all).
    + apply array_elems_none in Hall. unfold transforms. rewrite bind_run.
      destruct (truthy (option_of options "replayable")).
      * unfold removeNonEssentialInformationFrom. rewrite bind_run, Hsnap. simpl.
        by rewrite Hall.
      * simpl. destruct (truthy (option_of options "removeProxies")); [|done].
        unfold removeProxiesFrom. rewrite bind_run, Hsnap. simpl. by rewrite Hall.
Qed.

End Footprint.

(** ** Serialization: the live objects *)

Lemma member_prop h l m k x :
  h !! l = Some (CObj m) -> prop h (VRef l) k = Some (VRef x) ->
  VRef x ∈ members (CObj m).
Proof.
  intros Hl. unfold prop. rewrite Hl. intros H. simplify_eq.
  destruct (m !! k) as [v|] eqn:Hk; simplify_eq/=.
  apply list_elem_of_fmap. exists (k, VRef x). split; [done|].
  by apply elem_of_map_to_list.
Qed.

(** What the transforms may write to can be reached from what [stubs()]
    returned. *)
Lemma touched_reaches h snapshot all l :
  elems h snapshot = Some all -> touched h all l -> reaches h snapshot l.
Proof.
  intros Hall Htouched.
  destruct snapshot as [| | | | |a|]; try done. simpl in Hall.
  destruct (h !! a) as [[|stubs]|] eqn:Ha; simplify_eq.
  destruct Htouched as [Hstub|(stub & rs & response & Hstub & Hrs & Hresponse & Hbody)].
  - eapply reaches_member; [exact Ha|exact Hstub|]. constructor.
  - eapply reaches_member; [exact Ha|exact Hstub|].
    unfold responses_of in Hrs.
    destruct (prop h stub "responses") as [responses|] eqn:Hresponses; [|done].
    destruct responses as [| | | | |b|]; try done. simpl in Hrs.
    destruct (h !! b) as [[|rs']|] eqn:Hb; simplify_eq.
    destruct stub as [| | | | |ls|]; try done.
    destruct (h !! ls) as [[m|]|] eqn:Hls; try (by unfold prop in Hresponses; rewrite Hls in Hresponses).
    eapply reaches_member; [exact Hls|by eapply member_prop|].
    eapply reaches_member; [exact Hb|exact Hresponse|].
    destruct response as [| | | | |lr|]; try done.
    destruct (h !! lr) as [[mr|]|] eqn:Hlr; try (by unfold prop in Hbody; rewrite Hlr in Hbody).
    eapply reaches_member; [exact Hlr|by eapply member_prop|]. constructor.
Qed.

(** What can be reached from a value lies in any set of objects that holds
    the value's own and is closed under membership. *)
Lemma reaches_within (inside : nat -> bool) h v l :
  map_Forall (fun l0 c =>
                inside l0 = true ->
                Forall (fun x => from_option inside true (ref_of x) = true) (members c)) h ->
  from_option inside true (ref_of v) = true ->
  reaches h v l -> inside l = true.
Proof.
  intros Hclosed Hv Hreach. induction Hreach as [l|l c v l' Hl Hmember _ IH]; [done|].
  apply IH. simpl in Hv.
  pose proof (Hclosed l c Hl Hv) as Hc. rewrite Forall_forall in Hc. by apply Hc.
Qed.

Section Live.

Variable creationRequest : CreationRequest.t.
Variable server : Server.t.

#[local] Abbreviation toJSON_ := (toJSON creationRequest server).

Lemma just_list_snapshot options s base s0 snapshot :
  toJSON_ (just_list options) s = (Ok base, s0) ->
  base !! "stubs" = Some (FValue snapshot) ->
  Server.stubs_stubs server (store s) = (Ok snapshot, store s0).
Proof.
  intros H Hsnap. apply toJSON_ok in H as (r1 & s1 & r3 & s2 & H1 & H3 & H4).
  rewrite !option_of_just_list in *. simpl in *.
  destruct H3 as [-> ->]. destruct H4 as [-> ->].
  destruct (truthy (option_of options "list")).
  - destruct H1 as [-> ->]. by vm_compute in Hsnap.
  - apply addDetailsTo_ok in H1 as (entries & stubs & _ & Hstubs & _ & ->).
    rewrite lookup_insert_ne in Hsnap by done. rewrite lookup_insert_eq in Hsnap.
    by simplify_eq.
Qed.

(** C5: [toJSON] is read-only, for every [options], when [stubs()] answers
    with a snapshot as a stub store is to do.  The request counter and the
    recorded-request log are as they were, and so are the awaited promises
    and the trace of recorded matches; every object that was in the store
    when [toJSON] was called, the live stubs and the state bag among them,
    is in the store as it was.  [toJSON] itself copies nothing: the
    [replayable] and [removeProxies] transforms work on the objects that
    [stubs()] returned, which are the stub store's copy. *)
Theorem serialization_frame (options : option (gmap string value)) (s : state) :
  answers_with_snapshot (store s) (Server.stubs_stubs server (store s)) ->
  let s' := (toJSON_ options s).2 in
  numberOfRequests s' = numberOfRequests s
  /\ requests s' = requests s
  /\ inflight s' = inflight s
  /\ calls s' = calls s
  /\ (forall l c, store s !! l = Some c -> store s' !! l = Some c).
Proof.
  intros [Hkept Hfresh] s'.
  destruct (serialization_footprint creationRequest server options s)
    as ((Hn & Hlog & Hinflight & Hcalls) & Hs0 & _ & _ & _ & Hwithin).
  fold s' in Hn, Hlog, Hinflight, Hcalls.
  do 4 (split; [done|]). intros l c Hl.
  assert (store (toJSON_ (just_list options) s).2 !! l = Some c) as Hl0.
  { destruct Hs0 as [-> | ->]; [done|by apply Hkept]. }
  destruct (toJSON_ (just_list options) s) as [[base|e] s0] eqn:Hbase.
  - destruct (just_list_stubs _ _ options s base s0 Hbase) as [Hnone|[snapshot Hsnap]].
    + subst s'. rewrite (toJSON_split _ _ options s), Hbase.
      unfold transforms. rewrite bind_run.
      assert (forall r : record, r !! "stubs" = None ->
                forall s1, field_elems (r !! "stubs") s1 = (Throw TypeError, s1)) as Hthrow.
      { intros r -> s1. done. }
      destruct (truthy (option_of options "replayable")).
      * unfold removeNonEssentialInformationFrom. rewrite bind_run, Hthrow by done. done.
      * simpl. destruct (truthy (option_of options "removeProxies")); [|done].
        unfold removeProxiesFrom. rewrite bind_run, Hthrow by done. done.
    + specialize (Hwithin base s0 snapshot eq_refl Hsnap). simpl in *.
      pose proof (just_list_snapshot options s base s0 snapshot Hbase Hsnap) as Hstubs.
      destruct (elems (store s0) snapshot) as [all|] eqn:Hall.
      * destruct (Hwithin l c Hl0) as [Hsame|Htouched]; [done|].
        apply (touched_reaches _ snapshot) in Htouched; [|done].
        rewrite Hstubs in Hfresh. rewrite (Hfresh snapshot l eq_refl Htouched) in Hl. done.
      * fold s' in Hwithin. by rewrite Hwithin.
  - subst s'. rewrite (toJSON_split _ _ options s), Hbase. done.
Qed.

End Live.

(** The snapshotting server answers [stubs()] with a snapshot, and a
    serialization with both transforms leaves the first live stub with its
    match history and its responses. *)
Lemma serialization_frame_demo :
  let options :=
    Some (<["replayable" := VBool true]> {["removeProxies" := VBool true]}) in
  let s' := (toJSON Demo.creationRequest Demo.snapshotting_server options Demo.listening).2 in
  answers_with_snapshot (store Demo.listening)
    (Server.stubs_stubs Demo.snapshotting_server (store Demo.listening))
  /\ store s' !! 1
     = Some (CObj (list_to_map [("matches", VRef 7); ("responses", VRef 2)]))
  /\ store s' !! 2 = Some (CArr [VRef 3; VRef 8]).
Proof.
  intros options s'.
  assert (answers_with_snapshot (store Demo.listening)
            (Server.stubs_stubs Demo.snapshotting_server (store Demo.listening))) as Hsnapshot.
  { split.
    - intros l c Hl.
      assert (map_Forall (fun l c =>
                (Server.stubs_stubs Demo.snapshotting_server (store Demo.listening)).2 !! l
                = Some c) (store Demo.listening)) as Hall by by_computation.
      by apply Hall.
    - intros v l Hv Hreach. apply not_elem_of_dom.
      apply (bool_decide_eq_true_1 (l ∉ dom (store Demo.listening))).
      apply (reaches_within (fun l => bool_decide (l ∉ dom (store Demo.listening)))
               (Server.stubs_stubs Demo.snapshotting_server (store Demo.listening)).2 v l);
        [by_computation| |exact Hreach].
      vm_compute in Hv. simplify_eq. by_computation. }
  split; [exact Hsnapshot|].
  destruct (serialization_frame Demo.creationRequest Demo.snapshotting_server options
              Demo.listening Hsnapshot) as (_ & _ & _ & _ & Hkept).
  split; apply Hkept; vm_compute; reflexivity.
Defined.

(** Where the stub store hands out its own objects instead, as the demo's
    does, a replayable serialization takes the match history off the first
    live stub, and one without proxies gives it another list of responses. *)
Example live_stubs_change_without_snapshot :
  let replayable := (Demo.toJSON (Some {["replayable" := VBool true]}) Demo.listening).2 in
  let removeProxies :=
    (Demo.toJSON (Some {["removeProxies" := VBool true]}) Demo.listening).2 in
  prop (store Demo.listening) (VRef 1) "matches" = Some (VRef 7)
  /\ prop (store replayable) (VRef 1) "matches" = Some VUndefined
  /\ prop (store Demo.listening) (VRef 1) "responses" = Some (VRef 2)
  /\ prop (store removeProxies) (VRef 1) "responses" = Some (VRef 19).
Proof. repeat split; vm_compute; reflexivity. Qed.

(** * More of the module *)

(** ** Creation: what the rejection tells *)

Lemma string_length_app (x z : string) :
  String.length (x +:+ z) = String.length x + String.length z.
Proof. induction x as [|a x IH]; simpl; [done|]. by rewrite IH. Qed.

Lemma string_app_inj_r (x y z : string) : x +:+ z = y +:+ z -> x = y.
Proof.
  intros H.
  assert (String.length x = String.length y) as Hl.
  { apply (f_equal String.length) in H. rewrite !string_length_app in H. lia. }
  revert y H Hl. induction x as [|a x IH]; intros [|b y] H Hl; simpl in *; try done.
  injection H as -> H. f_equal. apply IH; [done|lia].
Qed.

(** X2: the message of the [ResourceConflictError] tells the requested port:
    two creation requests whose [EADDRINUSE] errors are mapped to the same
    rejection asked for the same port. *)
Theorem conflict_message_tells_port (p q : Z) (error error' : gmap string value) :
  error !! "errno" = Some (VStr "EADDRINUSE") ->
  error' !! "errno" = Some (VStr "EADDRINUSE") ->
  createErrorHandler (@Pending Imposter) (Some p) error
  = createErrorHandler (@Pending Imposter) (Some q) error' ->
  p = q.
Proof.
  intros He He'. unfold createErrorHandler, strict_eq. rewrite He, He'. simpl.
  intros H.
  assert ("Port " +:+ pretty p +:+ " is already in use"
          = "Port " +:+ pretty q +:+ " is already in use") as Hm by congruence.
  apply (inj (String.app "Port ")) in Hm.
  apply string_app_inj_r in Hm. by apply (inj pretty).
Qed.

Lemma conflict_message_tells_port_witness :
  createErrorHandler (@Pending Imposter) (Some 6000%Z) {["errno" := VStr "EADDRINUSE"]}
  = Rejected (ResourceConflictError "Port 6000 is already in use")
  /\ (6000 = 6000)%Z.
Proof.
  split; [reflexivity|].
  apply (conflict_message_tells_port 6000 6000
           {["errno" := VStr "EADDRINUSE"]} {["errno" := VStr "EADDRINUSE"]});
    reflexivity.
Defined.

(** ** The request pipeline: what is awaited, and when *)

Section Pipeline.

Variable config : Config.t.
Variable creationRequest : CreationRequest.t.
Variable server : Server.t.
Variable imposterState : value.
Variable Date_toJSON : Z -> string.

#[local] Abbreviation getResponseFor_ :=
  (getResponseFor config creationRequest server imposterState Date_toJSON).
#[local] Abbreviation fulfil_ := (fulfil config server).

(** The state in which [getResponseFor] calls the stub store: the request is
    counted, and recorded if recording is on. *)
Lemma getResponseFor_run request now s :
  getResponseFor_ request now s
  = let s1 :=
      (if truthy (recordRequests config creationRequest)
       then set_requests (requests s ++ [stamped Date_toJSON (clone request, now)])
       else fun s => s)
        (set_numberOfRequests (numberOfRequests s + 1) s) in
    match Server.stubs_getResponseFor server request imposterState (store s) with
    | (Throw e, h) => (Throw e, set_store h s1)
    | (Ok responseConfig, h) =>
        match Server.resolver_resolve server responseConfig request imposterState h with
        | (Throw e, h') => (Throw e, set_store h' s1)
        | (Ok _, h') =>
            (Ok (fresh (dom (inflight s))),
             set_inflight (<[fresh (dom (inflight s)) := PResolve responseConfig]>
                             (inflight s)) (set_store h' s1))
        end
    end.
Proof.
  unfold getResponseFor, mbind, M_bind, bind, modify, collab, await, ret, stamped.
  simpl. destruct (truthy (recordRequests config creationRequest)); simpl;
    destruct (Server.stubs_getResponseFor server request imposterState (store s))
      as [[c|e] h]; simpl; try done;
    destruct (Server.resolver_resolve server c request imposterState h)
      as [[[]|e] h']; simpl; done.
Qed.

(** X3: when the stub store throws while matching, [getResponseFor] throws
    what it threw.  The request has been counted all the same, and recorded
    if recording is on; the resolver is not called, no promise is awaited and
    no match is recorded. *)
Theorem matching_failure_is_counted request now s e h :
  Server.stubs_getResponseFor server request imposterState (store s) = (Throw e, h) ->
  let result := getResponseFor_ request now s in
  result.1 = Throw e
  /\ numberOfRequests result.2 = numberOfRequests s + 1
  /\ requests result.2
     = (if truthy (recordRequests config creationRequest)
        then requests s ++ [stamped Date_toJSON (request, now)]
        else requests s)%list
  /\ store result.2 = h
  /\ inflight result.2 = inflight s
  /\ calls result.2 = calls s.
Proof.
  intros Hthrow result. subst result. rewrite getResponseFor_run, Hthrow. simpl.
  unfold stamped. simpl. rewrite clone_id.
  by destruct (truthy (recordRequests config creationRequest)).
Qed.

(** X4: when the stub store returns a response configuration and the
    resolver returns its promise, [getResponseFor] returns a promise that
    was not awaited before; it is awaited now, with that configuration, and
    the other awaited promises are as they were.  When the resolver throws
    instead, nothing is awaited.  Either way the store is as the resolver
    left it and no match has been recorded yet. *)
Theorem resolution_is_awaited request now s responseConfig h o h' :
  Server.stubs_getResponseFor server request imposterState (store s)
    = (Ok responseConfig, h) ->
  Server.resolver_resolve server responseConfig request imposterState h = (o, h') ->
  let result := getResponseFor_ request now s in
  store result.2 = h'
  /\ calls result.2 = calls s
  /\ numberOfRequests result.2 = numberOfRequests s + 1
  /\ match o with
     | Ok _ =>
         exists i, result.1 = Ok i
                   /\ inflight s !! i = None
                   /\ inflight result.2 !! i = Some (PResolve responseConfig)
                   /\ forall j, j <> i -> inflight result.2 !! j = inflight s !! j
     | Throw e => result.1 = Throw e /\ inflight result.2 = inflight s
     end.
Proof.
  intros Hmatch Hresolve result. subst result.
  rewrite getResponseFor_run, Hmatch, Hresolve. simpl.
  destruct o as [[]|e]; simpl.
  - repeat split; try by destruct (truthy (recordRequests config creationRequest)).
    exists (fresh (dom (inflight s))).
    assert (inflight s !! fresh (dom (inflight s)) = None) as Hfresh
      by (apply not_elem_of_dom, is_fresh).
    destruct (truthy (recordRequests config creationRequest)); simpl;
      (split; [done|]; split; [done|]; split; [by rewrite lookup_insert_eq|];
       intros j Hj; by rewrite lookup_insert_ne).
  - by destruct (truthy (recordRequests config creationRequest)).
Qed.

(** X5: a call to [getProxyResponseFor] is not a request: it changes neither
    the counter nor the log.  When the resolver returns its promise, a
    promise that was not awaited before is awaited; when it throws, nothing
    is. *)
Theorem proxy_response_is_not_counted proxyResponse proxyResolutionKey s :
  let result := getProxyResponseFor server proxyResponse proxyResolutionKey s in
  numberOfRequests result.2 = numberOfRequests s
  /\ requests result.2 = requests s
  /\ calls result.2 = calls s
  /\ match Server.resolver_resolveProxy server proxyResponse proxyResolutionKey (store s) with
     | (Ok _, h) =>
         exists i, result.1 = Ok i /\ inflight s !! i = None
                   /\ inflight result.2 = <[i := PResolveProxy]> (inflight s)
                   /\ store result.2 = h
     | (Throw e, h) =>
         result.1 = Throw e /\ inflight result.2 = inflight s /\ store result.2 = h
     end.
Proof.
  intros result. subst result.
  unfold getProxyResponseFor, mbind, M_bind, bind, collab, await.
  destruct (Server.resolver_resolveProxy server proxyResponse proxyResolutionKey (store s))
    as [[[]|e] h]; simpl; [|done].
  repeat split. exists (fresh (dom (inflight s))). repeat split.
  apply not_elem_of_dom, is_fresh.
Qed.

End Pipeline.

(** ** The callbacks: when a match is recorded *)

Section Callbacks.

Variable config : Config.t.
Variable server : Server.t.

#[local] Abbreviation fulfil_ := (fulfil config server).

(** X7: with match recording off, both callbacks hand the response on as it
    came, whatever it is, [undefined] included; they do not read it, call no
    recorder and leave the store. *)
Theorem callbacks_pass_response_on_when_not_recording i response s p :
  truthy (Config.recordMatches config) = false ->
  inflight s !! i = Some p ->
  fulfil_ i response s = (Ok response, set_inflight (delete i (inflight s)) s).
Proof.
  intros Hflag Hi.
  unfold fulfil, getResponseFor_then, getProxyResponseFor_then,
    mbind, M_bind, bind, modify, get_state, ret, mret, M_ret.
  simpl. rewrite Hi. destruct p; simpl; by rewrite Hflag.
Qed.

(** X8: with match recording on, whether [getResponseFor] records a match
    for a response object is a matter of the value of its [proxy], not of
    the presence of the field: a truthy [proxy] means no call, and the
    response is handed on with the store untouched; a falsy one, [null] or
    [false] say, means one call.  The same holds of [response]: a falsy value
    there is no wrapper, and the match is recorded with the response
    itself.  The call is made if the response configuration has a
    [recordMatch] to call; if it has none, being [undefined] say, the
    callback throws a [TypeError] and nothing is called. *)
Theorem match_recording_follows_truthiness i l m responseConfig s :
  truthy (Config.recordMatches config) = true ->
  inflight s !! i = Some (PResolve responseConfig) ->
  store s !! l = Some (CObj m) ->
  let proxy := default VUndefined (m !! "proxy") in
  let wrapped := default VUndefined (m !! "response") in
  let result := fulfil_ i (VRef l) s in
  if truthy proxy
  then result = (Ok (VRef l), set_inflight (delete i (inflight s)) s)
  else match prop (store s) responseConfig "recordMatch" with
       | Some (VFun _) =>
           calls result.2
           = (calls s ++ [ConfigRecordMatch responseConfig
                            (if truthy wrapped then wrapped else VRef l)])%list
       | _ => result = (Throw TypeError, set_inflight (delete i (inflight s)) s)
       end.
Proof.
  intros Hflag Hi Hl proxy wrapped result. subst proxy wrapped result.
  rewrite fulfil_run, Hi.
  destruct (truthy (default VUndefined (m !! "proxy"))) eqn:Hproxy.
  - unfold getResponseFor_then. rewrite Hflag, !bind_run.
    rewrite (get_prop_prop (VRef l) "proxy" (set_inflight (delete i (inflight s)) s) _
               (prop_object _ _ _ "proxy" Hl)).
    unfold ret at 1. by rewrite Hproxy.
  - rewrite (getResponseFor_then_run config server responseConfig l m) by done.
    rewrite responseConfig_recordMatch_run. simpl.
    destruct (prop (store s) responseConfig "recordMatch") as [[]|]; try done.
    by destruct (Server.responseConfig_recordMatch server responseConfig _ (store s))
      as [[[]|e] h].
Qed.

(** X9: with match recording on, a promise of [getResponseFor] that is
    fulfilled with [undefined] or [null] makes the callback throw a
    [TypeError] when it reads [response.proxy]: the promise that
    [getResponseFor] returned is rejected, and no match is recorded. *)
Theorem missing_response_is_a_type_error i response responseConfig s :
  truthy (Config.recordMatches config) = true ->
  inflight s !! i = Some (PResolve responseConfig) ->
  response = VUndefined \/ response = VNull ->
  fulfil_ i response s = (Throw TypeError, set_inflight (delete i (inflight s)) s).
Proof.
  intros Hflag Hi Hresponse.
  unfold fulfil, getResponseFor_then, get_prop,
    mbind, M_bind, bind, modify, get_state, ret, mret, M_ret.
  simpl. rewrite Hi, Hflag. by destruct Hresponse as [-> | ->].
Qed.


End Callbacks.

(** ** Serialization: more on the fields *)


Section MoreFields.

Variable creationRequest : CreationRequest.t.
Variable server : Server.t.

#[local] Abbreviation toJSON_ := (toJSON creationRequest server).

(** X11: [list] goes with neither transform.  A call with [list] and with
    [replayable] or [removeProxies] throws a [TypeError], for [result.stubs]
    is [undefined]; the state is as it was. *)
Theorem list_with_transform_throws options s :
  truthy (option_of options "list") = true ->
  truthy (option_of options "replayable") = true
  \/ truthy (option_of options "removeProxies") = true ->
  toJSON_ options s = (Throw TypeError, s).
Proof.
  intros Hlist Htransform. unfold toJSON. rewrite bind_run. simpl.
  rewrite Hlist. simpl. rewrite bind_run. simpl. rewrite bind_run.
  destruct (truthy (option_of options "replayable")) eqn:Hrep.
  - unfold removeNonEssentialInformationFrom. rewrite bind_run. by vm_compute.
  - destruct Htransform as [?|Hrem]; [done|]. simpl. rewrite bind_run, Hrem.
    unfold removeProxiesFrom. rewrite bind_run. by vm_compute.
Qed.

(** X12: unless [replayable] is set, the record that [toJSON] returns links
    to the imposter under the very [url] that [create] gave the imposter;
    no metadata can take the place of [_links]. *)
Theorem self_link_is_the_url options s r s' :
  toJSON_ options s = (Ok r, s') ->
  truthy (option_of options "replayable") = false ->
  r !! "_links"
  = Some (FObject [("self",
                    FObject [("href",
                              FValue (VStr (Imposter_url (imposter_of server))))])]).
Proof.
  intros H Hrep. apply toJSON_ok in H as (r1 & s1 & r3 & s2 & _ & H3 & H4).
  rewrite Hrep in H3. destruct H3 as [-> ->].
  destruct (truthy (option_of options "removeProxies")).
  - apply removeProxiesFrom_ok in H4 as [kept ->].
    rewrite lookup_insert_ne by done. by rewrite lookup_insert_eq.
  - destruct H4 as [-> _]. by rewrite lookup_insert_eq.
Qed.

(** X13: in detail mode no metadata can take the place of [requests] or of
    [stubs].  Unless [replayable] is set, [requests] is the live log itself,
    not a copy of it; unless [removeProxies] is set, [stubs] is the very
    value that [stubs()] returned. *)
Theorem requests_and_stubs_are_not_shadowed options s r s' :
  toJSON_ options s = (Ok r, s') ->
  truthy (option_of options "list") = false ->
  (truthy (option_of options "replayable") = false -> r !! "requests" = Some FRequests)
  /\ (truthy (option_of options "removeProxies") = false ->
      exists stubs h, Server.stubs_stubs server (store s) = (Ok stubs, h)
                      /\ r !! "stubs" = Some (FValue stubs)).
Proof.
  intros H Hlist. apply toJSON_ok in H as (r1 & s1 & r3 & s2 & H1 & H3 & H4).
  rewrite Hlist in H1.
  apply addDetailsTo_ok in H1 as (entries & stubs & _ & Hstubs & _ & Hr1).
  assert (r1 !! "requests" = Some FRequests /\ r1 !! "stubs" = Some (FValue stubs))
    as [Hq Hs].
  { subst r1. rewrite lookup_insert_ne by done. by rewrite !lookup_insert_eq. }
  clear Hr1. split.
  - intros Hrep. rewrite Hrep in H3. destruct H3 as [-> ->].
    destruct (truthy (option_of options "removeProxies")).
    + apply removeProxiesFrom_ok in H4 as [kept ->].
      by rewrite !lookup_insert_ne.
    + destruct H4 as [-> _]. by rewrite lookup_insert_ne.
  - intros Hrem. rewrite Hrem in H4. destruct H4 as [-> ->].
    exists stubs, (store s1). split; [done|].
    destruct (truthy (option_of options "replayable")).
    + apply removeNonEssentialInformationFrom_ok in H3 as ->.
      rewrite !lookup_delete_ne by done. by rewrite lookup_insert_ne.
    + destruct H3 as [-> _]. by rewrite lookup_insert_ne.
Qed.


(** X15: the record has the name of the imposter only if the creation
    request has a truthy one: an empty name is left out like a missing one
    (unless the metadata has a property [name]). *)
Theorem name_is_left_out_when_falsy options s r s' :
  toJSON_ options s = (Ok r, s') ->
  truthy (option_of options "list") = false ->
  "name" ∉ metadata_keys server s ->
  r !! "name"
  = if truthy (CreationRequest.name creationRequest)
    then Some (FValue (CreationRequest.name creationRequest))
    else None.
Proof.
  intros H Hlist Hmeta.
  rewrite (detail_field creationRequest server options s r s' "name" H Hlist Hmeta);
    try done.
  rewrite lookup_insert_ne by done.
  destruct (truthy (CreationRequest.name creationRequest)).
  - by rewrite lookup_insert_eq.
  - by vm_compute.
Qed.

End MoreFields.

(** ** Serialization: the counter it reports *)

(** X16: after any events on an imposter that has begun to listen, a
    serialization that is not replayable reports as [numberOfRequests] the
    number of calls to [getResponseFor] among them (in detail mode, unless
    the metadata has a property of that name). *)
Theorem reported_counter_counts_requests (config : Config.t)
    (creationRequest : CreationRequest.t) (server : Server.t)
    (imposterState : value) (Date_toJSON : Z -> string)
    (h : heap) (events : list event) (options : option (gmap string value))
    (r : record) (s' : state) :
  let s := run config creationRequest server imposterState Date_toJSON
             (listening h) events in
  toJSON creationRequest server options s = (Ok r, s') ->
  truthy (option_of options "replayable") = false ->
  truthy (option_of options "list") = true
  \/ "numberOfRequests" ∉ metadata_keys server s ->
  r !! "numberOfRequests"
  = Some (FValue (VNum (Z.of_nat (length (requests_of events))))).
Proof.
  intros s H Hrep Hshadow.
  assert (numberOfRequests s = length (requests_of events)) as Hn.
  { subst s.
    by destruct (run_log config creationRequest server imposterState Date_toJSON
                   (listening h) events) as [-> _]. }
  rewrite <- Hn. clearbody s. clear Hn.
  destruct (truthy (option_of options "list")) eqn:Hlist.
  - apply toJSON_list_ok in H as (_ & _ & -> & _); [|done]. by vm_compute.
  - destruct Hshadow as [?|Hshadow]; [done|].
    rewrite (detail_field creationRequest server options s r s' "numberOfRequests"
               H Hlist Hshadow); try done.
    + by destruct (truthy (CreationRequest.name creationRequest)); vm_compute.
    + by rewrite Hrep.
Qed.

(** ** Serialization: what each transform leaves alone *)

Lemma rewires_refl h : rewires h h.
Proof. intros l. destruct (h !! l) as [[m|a]|]; eauto. Qed.

Lemma rewires_trans h0 h1 h2 : rewires h0 h1 -> rewires h1 h2 -> rewires h0 h2.
Proof.
  intros H01 H12 l. specialize (H01 l). specialize (H12 l).
  destruct (h0 !! l) as [[m0|a]|]; [| |done].
  - destruct H01 as (m1 & Hl1 & Hk1). rewrite Hl1 in H12.
    destruct H12 as (m2 & Hl2 & Hk2). exists m2. split; [done|].
    intros k ?. rewrite Hk2, Hk1; done.
  - by rewrite H01 in H12.
Qed.

Lemma filter_responses_rewires stub s :
  rewires (store s) (store (filter_responses stub s).2).
Proof.
  destruct (filter_responses stub s) as [[[]|e] s'] eqn:H; simpl.
  - apply filter_responses_ok in H as (l & m & a & rs & -> & Hl & Hm & Ha & ->).
    simpl. intros l'.
    assert (store s !! fresh (dom (store s)) = None) as Hfresh
      by (apply not_elem_of_dom, is_fresh).
    destruct (decide (l' = l)) as [->|Hne].
    + rewrite Hl, lookup_insert_eq. eexists. split; [done|].
      intros k Hk. by rewrite lookup_insert_ne.
    + rewrite lookup_insert_ne by done.
      destruct (store s !! l') as [[m'|a']|] eqn:E; [| |done].
      * rewrite lookup_insert_ne by congruence. rewrite E. eauto.
      * rewrite lookup_insert_ne by congruence. done.
  - apply filter_responses_throw in H as ->. apply rewires_refl.
Qed.

Lemma removeProxiesFrom_rewires r3 s2 :
  rewires (store s2) (store (removeProxiesFrom r3 s2).2).
Proof.
  unfold removeProxiesFrom. rewrite bind_run.
  destruct (field_elems (r3 !! "stubs") s2) as [[all|e] s1] eqn:H1.
  2:{ apply read_only_state in H1 as ->; [apply rewires_refl|apply read_only_field_elems]. }
  apply read_only_state in H1 as ->; [|apply read_only_field_elems].
  rewrite bind_run.
  assert (rewires (store s2) (store (for_each filter_responses all s2).2)) as Hs3.
  { apply (for_each_invariant (fun s => rewires (store s2) (store s)));
      [|apply rewires_refl].
    intros stub _ s Hs. eapply rewires_trans; [done|apply filter_responses_rewires]. }
  destruct (for_each filter_responses all s2) as [[[]|e] s3]; [|done].
  simpl in Hs3. rewrite bind_run.
  destruct (field_elems (r3 !! "stubs") s3) as [[stubs'|e] s4] eqn:H2.
  2:{ apply read_only_state in H2 as ->; [done|apply read_only_field_elems]. }
  apply read_only_state in H2 as ->; [|apply read_only_field_elems].
  rewrite bind_run.
  destruct (filter_elems has_responses stubs' s3) as [[kept|e] s4] eqn:H3;
    apply read_only_state in H3 as ->;
    try done; apply read_only_filter_elems, read_only_has_responses.
Qed.

Section Transforms.

Variable creationRequest : CreationRequest.t.
Variable server : Server.t.

#[local] Abbreviation toJSON_ := (toJSON creationRequest server).


(** X18: a serialization with [removeProxies] and without [replayable]
    touches [responses] and nothing more.  Once [stubs()] has returned, no
    array is changed and every object keeps every property but [responses]:
    the match history and the [_proxyResponseTime] stay. *)
Theorem remove_proxies_only_rewires options s :
  truthy (option_of options "replayable") = false ->
  rewires (store (toJSON_ (just_list options) s).2) (store (toJSON_ options s).2).
Proof.
  intros Hrep. rewrite (toJSON_split creationRequest server options s).
  destruct (toJSON_ (just_list options) s) as [[base|e] s0] eqn:Hbase;
    [|apply rewires_refl].
  simpl. unfold transforms. rewrite bind_run, Hrep. simpl.
  destruct (truthy (option_of options "removeProxies")); [|apply rewires_refl].
  apply removeProxiesFrom_rewires.
Qed.

(** X19: a replayable serialization needs every stub to have an array of
    responses.  If one of the stubs that [stubs()] returned has none, say
    because it has no [responses] at all, [toJSON] does not return a
    record. *)
Theorem replayable_needs_responses options s base s0 snapshot all stub :
  truthy (option_of options "replayable") = true ->
  toJSON_ (just_list options) s = (Ok base, s0) ->
  base !! "stubs" = Some (FValue snapshot) ->
  elems (store s0) snapshot = Some all ->
  stub ∈ all ->
  responses_of (store s0) stub = None ->
  exists e, (toJSON_ options s).1 = Throw e.
Proof.
  intros Hrep Hbase Hsnap Hall Hin Hnone.
  rewrite (toJSON_split creationRequest server options s), Hbase.
  unfold transforms. rewrite bind_run, Hrep.
  destruct (removeNonEssentialInformationFrom_within base s0 snapshot all Hsnap Hall)
    as [Hth _].
  destruct (removeNonEssentialInformationFrom base s0) as [[r3|e] s2] eqn:H3;
    [|by eexists].
  exfalso. simpl in Hth.
  apply removeNonEssentialInformationFrom_strips in H3 as (all' & Hall' & _ & Hst & _).
  rewrite Hsnap in Hall'. simpl in Hall'. apply array_elems_ok in Hall' as [_ Hall'].
  assert (all' = all) as -> by congruence.
  rewrite Forall_forall in Hst.
  destruct (Hst stub Hin) as (matches & responses & rs & _ & _ & Hr & He & _).
  rewrite <- (thins_responses_of (store s0) (store s2)) in Hnone by done.
  unfold responses_of in Hnone. rewrite Hr in Hnone. congruence.
Qed.

End Transforms.

(** ** Serialization: what it throws *)

Lemma type_errors_only_ret {A} (a : A) : type_errors_only (ret a).
Proof. intros s e s' H. done. Qed.

Lemma type_errors_only_throw {A} : type_errors_only (throw TypeError : M A).
Proof. intros s e s' H. unfold throw in H. by simplify_eq. Qed.

Lemma type_errors_only_bind {A B} (m : M A) (k : A -> M B) :
  type_errors_only m -> (forall a, type_errors_only (k a)) ->
  type_errors_only (m ≫= k).
Proof.
  intros Hm Hk s e s' H. rewrite bind_run in H.
  destruct (m s) as [[a|e0] s1] eqn:E.
  - by eapply Hk.
  - simplify_eq. by eapply Hm.
Qed.

Ltac type_error_op :=
  let s := fresh "s" in let e := fresh "e" in let s' := fresh "s'" in
  let H := fresh "H" in
  intros s e s' H;
  cbv beta delta [get_prop has_own_property set_prop delete_prop array_elems
                  length_positive object_entries alloc] in H;
  repeat (case_match; simplify_eq); done.

Lemma type_errors_only_get_prop v k : type_errors_only (get_prop v k).
Proof. type_error_op. Qed.

Lemma type_errors_only_has_own_property v k : type_errors_only (has_own_property v k).
Proof. type_error_op. Qed.

Lemma type_errors_only_set_prop v k x : type_errors_only (set_prop v k x).
Proof. type_error_op. Qed.

Lemma type_errors_only_delete_prop v k : type_errors_only (delete_prop v k).
Proof. type_error_op. Qed.

Lemma type_errors_only_array_elems v : type_errors_only (array_elems v).
Proof. type_error_op. Qed.

Lemma type_errors_only_length_positive v : type_errors_only (length_positive v).
Proof. type_error_op. Qed.

Lemma type_errors_only_object_entries v : type_errors_only (object_entries v).
Proof. type_error_op. Qed.

Lemma type_errors_only_alloc c : type_errors_only (alloc c).
Proof. type_error_op. Qed.

Lemma type_errors_only_field_elems f : type_errors_only (field_elems f).
Proof.
  destruct f as [[]|]; simpl;
    auto using type_errors_only_array_elems, type_errors_only_ret,
      type_errors_only_throw.
Qed.

Lemma type_errors_only_if {A} (b : bool) (m1 m2 : M A) :
  type_errors_only m1 -> type_errors_only m2 ->
  type_errors_only (if b then m1 else m2).
Proof. by destruct b. Qed.

Lemma type_errors_only_for_each {A} (f : A -> M unit) l :
  (forall x, type_errors_only (f x)) -> type_errors_only (for_each f l).
Proof.
  intros Hf. induction l as [|x l IH]; simpl; [apply type_errors_only_ret|].
  apply type_errors_only_bind; auto.
Qed.

Lemma type_errors_only_filter_elems p l :
  (forall x, type_errors_only (p x)) -> type_errors_only (filter_elems p l).
Proof.
  intros Hp. induction l as [|x l IH]; simpl; [apply type_errors_only_ret|].
  apply type_errors_only_bind; [auto|]. intros b.
  apply type_errors_only_bind; [auto|]. intros rest. apply type_errors_only_ret.
Qed.

Create HintDb type_errors.
#[export] Hint Resolve type_errors_only_ret type_errors_only_throw
  type_errors_only_get_prop type_errors_only_has_own_property
  type_errors_only_set_prop type_errors_only_delete_prop
  type_errors_only_array_elems type_errors_only_length_positive
  type_errors_only_object_entries type_errors_only_alloc
  type_errors_only_field_elems : type_errors.

Ltac type_errors_tac :=
  repeat first
    [ progress (eauto with type_errors)
    | apply type_errors_only_bind; [|intros ?]
    | apply type_errors_only_if
    | apply type_errors_only_for_each; intros ?
    | apply type_errors_only_filter_elems; intros ? ].

Lemma type_errors_only_transforms options result :
  type_errors_only (transforms options result).
Proof.
  unfold transforms, removeNonEssentialInformationFrom, removeProxiesFrom,
    strip_stub, strip_response, filter_responses, not_proxy, has_responses.
  type_errors_tac; apply type_errors_only_ret.
Qed.

Section Throws.

Variable creationRequest : CreationRequest.t.
Variable server : Server.t.

#[local] Abbreviation toJSON_ := (toJSON creationRequest server).

(** X20: what [toJSON] throws is a [TypeError] of its own making, or what
    [stubs()] threw. *)
Theorem toJSON_throws_type_errors options s e s' :
  toJSON_ options s = (Throw e, s') ->
  e = TypeError
  \/ exists h, Server.stubs_stubs server (store s) = (Throw e, h).
Proof.
  intros H. rewrite (toJSON_split creationRequest server options s) in H.
  destruct (toJSON_ (just_list options) s) as [[base|e0] s0] eqn:Hbase.
  { left. by eapply type_errors_only_transforms. }
  simplify_eq. unfold toJSON in Hbase. rewrite bind_run in Hbase.
  simpl in Hbase. rewrite bind_run in Hbase.
  destruct (truthy (option_of (just_list options) "list")); simpl in Hbase.
  { rewrite !bind_run in Hbase. simpl in Hbase.
    rewrite !option_of_just_list in Hbase. simpl in Hbase.
    rewrite ?bind_run in Hbase. simpl in Hbase. done. }
  unfold addDetailsTo in Hbase. rewrite bind_run in Hbase.
  destruct (object_entries (Server.metadata server) s) as [[entries|e1] s1] eqn:He.
  - apply read_only_state in He as ->; [|apply read_only_object_entries].
    rewrite bind_run in Hbase. unfold collab in Hbase.
    destruct (Server.stubs_stubs server (store s)) as [[stubs|e2] h] eqn:Hs.
    + simpl in Hbase. rewrite !bind_run in Hbase. simpl in Hbase.
      rewrite !option_of_just_list in Hbase. simpl in Hbase.
      rewrite ?bind_run in Hbase. simpl in Hbase. done.
    + simpl in Hbase. simplify_eq. right. by exists h.
  - simpl in Hbase. simplify_eq. left.
    by eapply type_errors_only_object_entries.
Qed.

End Throws.

(** ** The integrity test of the documentation *)

(** X21: the test takes the platform for Windows exactly when its name
    begins with [win].  A name that has [win] further on, as [darwin] has,
    is not Windows. *)
Theorem windows_is_a_prefix (platform : string) :
  (Docs.isWindows platform = true <-> exists rest, platform = "win" +:+ rest)
  /\ Docs.isWindows "darwin" = false.
Proof.
  split; [|reflexivity].
  assert (Docs.isWindows platform = String.prefix "win" platform) as ->.
  { unfold Docs.isWindows. destruct platform as [|a p]; [done|].
    cbn [String.index]. destruct (String.prefix "win" (String a p)); [done|].
    by destruct (String.index 0 "win" p). }
  split.
  - intros H. apply String.prefix_correct in H.
    destruct platform as [|a [|b [|c rest]]]; simpl in H; try done.
    exists rest. injection H as -> -> ->. done.
  - intros [rest ->]. apply String.prefix_correct. simpl. by destruct rest.
Qed.

Lemma test_name_inj page page' : Docs.test_name page = Docs.test_name page' -> page = page'.
Proof. apply string_app_inj_r. Qed.

(** X22: the tests of the tcp pages are registered exactly when tcp runs in
    process and the platform is not Windows; the other pages are tested
    everywhere.  Whatever the platform, no page is tested twice and no two
    tests bear the same name. *)
Theorem tcp_pages_need_tcp_in_process (tcpIsInProcess : bool) (platform : string) :
  (forall page, page ∈ Docs.pages -> page ∈ Docs.validated tcpIsInProcess platform)
  /\ (forall page, page ∈ Docs.tcp_pages ->
        (page ∈ Docs.validated tcpIsInProcess platform
         <-> tcpIsInProcess = true /\ Docs.isWindows platform = false))
  /\ NoDup (Docs.validated tcpIsInProcess platform)
  /\ NoDup (Docs.test_name <$> Docs.validated tcpIsInProcess platform).
Proof.
  assert (NoDup (Docs.pages ++ Docs.tcp_pages)) as Hnd by by_computation.
  assert (NoDup (Docs.validated tcpIsInProcess platform)) as Hv.
  { unfold Docs.validated.
    destruct (tcpIsInProcess && negb (Docs.isWindows platform)); [done|].
    rewrite ?app_nil_r. by apply NoDup_app in Hnd as [? _]. }
  split; [|split; [|split]].
  - intros page Hpage. unfold Docs.validated. apply elem_of_app. by left.
  - intros page Hpage. unfold Docs.validated.
    apply NoDup_app in Hnd as (_ & Hdisjoint & _).
    destruct tcpIsInProcess; cbn [andb negb].
    + destruct (Docs.isWindows platform); cbn [andb negb].
      * rewrite ?app_nil_r. split; [|by intros [_ ?]].
        intros Hin. by destruct (Hdisjoint page Hin).
      * split; [done|]. intros _. apply elem_of_app. by right.
    + rewrite ?app_nil_r. split; [|by intros [? _]].
      intros Hin. by destruct (Hdisjoint page Hin).
  - done.
  - apply NoDup_fmap_2; [|done]. intros page page'. apply test_name_inj.
Qed.

(** ** Creation: the stubs of the creation request *)

(** [stubs.forEach(stubs.addStub)], stub by stub: it ends with every stub
    added, or at the first stub that [addStub] throws on. *)
Lemma for_each_addStub (server : Server.t) (stubs : list value) (s : state) :
  let added := fun h stub => (Server.stubs_addStub server stub h).2 in
  let add_all := for_each (fun stub => collab (Server.stubs_addStub server stub)) in
  match add_all stubs s with
  | (Ok _, s') => s' = set_store (fold_left added stubs (store s)) s
  | (Throw e, s') =>
      exists before stub after,
        stubs = (before ++ stub :: after)%list
        /\ add_all before s = (Ok tt, set_store (fold_left added before (store s)) s)
        /\ Server.stubs_addStub server stub (fold_left added before (store s))
           = (Throw e, store s')
        /\ s' = set_store (store s') s
  end.
Proof.
  intros added add_all. revert s. induction stubs as [|x l IH]; intros s.
  - simpl. by destruct s.
  - unfold add_all. simpl. rewrite bind_run. unfold collab at 1.
    destruct (Server.stubs_addStub server x (store s)) as [[[]|e] h] eqn:Hx.
    + specialize (IH (set_store h s)). fold add_all.
      assert (added (store s) x = h) as Hh by (unfold added; by rewrite Hx).
      rewrite Hh.
      destruct (add_all l (set_store h s)) as [[[]|e] s'] eqn:Hl.
      * by rewrite IH.
      * destruct IH as (before & stub & after & -> & Hbefore & Hstub & Hs').
        exists (x :: before), stub, after. simpl. rewrite Hh.
        split; [done|]. split; [|split].
        -- unfold add_all in *. simpl. rewrite bind_run. unfold collab at 1.
           rewrite Hx. by rewrite Hbefore.
        -- done.
        -- by rewrite Hs'.
    + exists [], x, l. simpl. split; [done|]. split; [by destruct s|]. by split.
Qed.

(** X23: when the server is up, the stubs of the creation request go to
    [addStub] one by one, in the order of the request, each on the store as
    the one before left it.  If all are accepted the imposter is made, with
    the port and the address of the server.  If [addStub] throws on one, the
    callback throws the same, no imposter is made and the stubs after it are
    not added.  Either way nothing is counted, recorded or awaited. *)
Theorem creation_stubs_are_added_in_order (creationRequest : CreationRequest.t)
    (server : Server.t) (s : state) :
  let stubs := default [] (CreationRequest.stubs creationRequest) in
  let added := fun h stub => (Server.stubs_addStub server stub h).2 in
  let result := serverCreated creationRequest server s in
  numberOfRequests result.2 = numberOfRequests s
  /\ requests result.2 = requests s
  /\ inflight result.2 = inflight s
  /\ calls result.2 = calls s
  /\ match result.1 with
     | Ok imposter =>
         imposter = imposter_of server
         /\ Imposter_port imposter = Server.port server
         /\ store result.2 = fold_left added stubs (store s)
     | Throw e =>
         exists before stub after,
           stubs = (before ++ stub :: after)%list
           /\ Server.stubs_addStub server stub (fold_left added before (store s))
              = (Throw e, store result.2)
     end.
Proof.
  intros stubs added result. unfold result, serverCreated.
  rewrite bind_run.
  destruct (CreationRequest.stubs creationRequest) as [l|] eqn:Hstubs.
  - pose proof (for_each_addStub server l s) as H. simpl in H.
    destruct (for_each _ l s) as [[[]|e] s'].
    + subst s'. by simpl.
    + destruct H as (before & stub & after & -> & _ & Hstub & ->).
      simpl. do 4 (split; [done|]). by exists before, stub, after.
  - by simpl.
Qed.

(** The demo server is handed two stubs at creation: its stub list has them
    at its end, in the order given. *)
Example creation_appends_to_demo_stubs :
  store (serverCreated
           {| CreationRequest.protocol := VStr "tcp";
              CreationRequest.port := Some 6000%Z;
              CreationRequest.name := VUndefined;
              CreationRequest.recordRequests := VUndefined;
              CreationRequest.stubs := Some [VRef 14; VRef 15] |}
           Demo.server Demo.listening).2 !! 0
  = Some (CArr [VRef 1; VRef 4; VRef 14; VRef 15]).
Proof. vm_compute. reflexivity. Qed.

(** ** The properties above, on the concrete imposter *)

(** A request with a field [fail] on the demo imposter: matching throws and
    the request is counted all the same. *)
Lemma matching_failure_is_counted_demo :
  Server.stubs_getResponseFor Demo.server [("fail", JBool true)] Demo.imposterState
    (store Demo.listening)
  = (Throw (Thrown (VStr "no match")), Demo.stubs_store)
  /\ numberOfRequests
       (getResponseFor Demo.config Demo.creationRequest Demo.server Demo.imposterState
          Demo.Date_toJSON [("fail", JBool true)] 1001 Demo.listening).2 = 1.
Proof.
  assert (Server.stubs_getResponseFor Demo.server [("fail", JBool true)]
            Demo.imposterState (store Demo.listening)
          = (Throw (Thrown (VStr "no match")), Demo.stubs_store)) as H by reflexivity.
  split; [exact H|].
  destruct (matching_failure_is_counted Demo.config Demo.creationRequest Demo.server
              Demo.imposterState Demo.Date_toJSON _ 1001 _ _ _ H) as (_ & Hn & _).
  exact Hn.
Defined.

(** A request that matches: the promise of its response is pending. *)
Lemma resolution_is_awaited_demo :
  Server.stubs_getResponseFor Demo.server [("data", JStr "ping")] Demo.imposterState
    (store Demo.listening)
  = (Ok (VRef 14), Demo.stubs_store)
  /\ Server.resolver_resolve Demo.server (VRef 14) [("data", JStr "ping")]
       Demo.imposterState Demo.stubs_store
     = (Ok tt, Demo.stubs_store)
  /\ exists i,
       inflight
         (getResponseFor Demo.config Demo.creationRequest Demo.server Demo.imposterState
            Demo.Date_toJSON [("data", JStr "ping")] 1000 Demo.listening).2 !! i
       = Some (PResolve (VRef 14)).
Proof.
  assert (Server.stubs_getResponseFor Demo.server [("data", JStr "ping")]
            Demo.imposterState (store Demo.listening)
          = (Ok (VRef 14), Demo.stubs_store)) as H by reflexivity.
  assert (Server.resolver_resolve Demo.server (VRef 14) [("data", JStr "ping")]
            Demo.imposterState Demo.stubs_store
          = (Ok tt, Demo.stubs_store)) as H' by reflexivity.
  split; [exact H|]. split; [exact H'|].
  destruct (resolution_is_awaited Demo.config Demo.creationRequest Demo.server
              Demo.imposterState Demo.Date_toJSON _ 1000 _ _ _ _ _ H H')
    as (_ & _ & _ & i & _ & _ & Hi & _).
  by exists i.
Defined.

(** With match recording off, the callback hands on [undefined] itself. *)
Lemma callbacks_pass_response_on_when_not_recording_demo :
  fulfil {| Config.recordRequests := VBool true; Config.recordMatches := VBool false |}
    Demo.server 0 VUndefined
    (Demo.run Demo.listening [Request [("data", JStr "ping")] 1000])
  = (Ok VUndefined,
     set_inflight
       (delete 0 (inflight (Demo.run Demo.listening [Request [("data", JStr "ping")] 1000])))
       (Demo.run Demo.listening [Request [("data", JStr "ping")] 1000])).
Proof.
  apply (callbacks_pass_response_on_when_not_recording
           {| Config.recordRequests := VBool true; Config.recordMatches := VBool false |}
           Demo.server 0 VUndefined _ (PResolve (VRef 14))).
  - reflexivity.
  - vm_compute. reflexivity.
Defined.

(** A response that wraps another: the match is recorded with the inner
    response. *)
Lemma match_recording_follows_truthiness_demo :
  calls (fulfil Demo.config Demo.server 0 (VRef 16)
           (Demo.run Demo.listening [Request [("data", JStr "ping")] 1000])).2
  = [ConfigRecordMatch (VRef 14) (VRef 15)].
Proof.
  assert (inflight (Demo.run Demo.listening [Request [("data", JStr "ping")] 1000]) !! 0
          = Some (PResolve (VRef 14))) as Hi by (vm_compute; reflexivity).
  assert (store (Demo.run Demo.listening [Request [("data", JStr "ping")] 1000]) !! 16
          = Some (CObj {["response" := VRef 15]})) as Hl by (vm_compute; reflexivity).
  exact (match_recording_follows_truthiness Demo.config Demo.server 0 16 _ (VRef 14) _
           eq_refl Hi Hl).
Defined.

(** An [undefined] response with match recording on. *)
Lemma missing_response_is_a_type_error_demo :
  (fulfil Demo.config Demo.server 0 VUndefined
     (Demo.run Demo.listening [Request [("data", JStr "ping")] 1000])).1
  = Throw TypeError.
Proof.
  assert (inflight (Demo.run Demo.listening [Request [("data", JStr "ping")] 1000]) !! 0
          = Some (PResolve (VRef 14))) as Hi by (vm_compute; reflexivity).
  by rewrite (missing_response_is_a_type_error Demo.config Demo.server 0 VUndefined
                (VRef 14) _ eq_refl Hi (or_introl eq_refl)).
Defined.


(** A summary that is asked to be replayable. *)
Lemma list_with_transform_throws_demo :
  Demo.toJSON (Some (<["list" := VBool true]> {["replayable" := VBool true]}))
    Demo.listening
  = (Throw TypeError, Demo.listening).
Proof.
  apply (list_with_transform_throws Demo.creationRequest Demo.server).
  - vm_compute. reflexivity.
  - left. vm_compute. reflexivity.
Defined.

(** The link of the demo imposter. *)
Lemma self_link_is_the_url_demo :
  exists r s',
    Demo.toJSON None Demo.listening = (Ok r, s')
    /\ r !! "_links"
       = Some (FObject [("self", FObject [("href", FValue (VStr "/imposters/6000"))])]).
Proof.
  pose (run := toJSON Demo.creationRequest Demo.server None Demo.listening).
  pose (r := match run.1 with Ok r => r | Throw _ => ∅ end).
  assert (toJSON Demo.creationRequest Demo.server None Demo.listening = (Ok r, run.2))
    as H by (vm_compute; reflexivity).
  exists r, run.2. split; [exact H|].
  by rewrite (self_link_is_the_url Demo.creationRequest Demo.server None Demo.listening
                r run.2 H eq_refl).
Defined.

(** The demo imposter shows its log and the stub list of its stub store. *)
Lemma requests_and_stubs_are_not_shadowed_demo :
  exists r s',
    Demo.toJSON None Demo.listening = (Ok r, s')
    /\ r !! "requests" = Some FRequests
    /\ exists stubs, r !! "stubs" = Some (FValue stubs).
Proof.
  pose (run := toJSON Demo.creationRequest Demo.server None Demo.listening).
  pose (r := match run.1 with Ok r => r | Throw _ => ∅ end).
  assert (toJSON Demo.creationRequest Demo.server None Demo.listening = (Ok r, run.2))
    as H by (vm_compute; reflexivity).
  exists r, run.2. split; [exact H|].
  destruct (requests_and_stubs_are_not_shadowed Demo.creationRequest Demo.server None
              Demo.listening r run.2 H eq_refl) as [Hrequests Hstubs].
  split; [by apply Hrequests|].
  destruct (Hstubs eq_refl) as (stubs & _ & _ & Hr). by exists stubs.
Defined.


(** The demo imposter has no name, and its record no field [name]. *)
Lemma name_is_left_out_when_falsy_demo :
  exists r s',
    Demo.toJSON None Demo.listening = (Ok r, s') /\ r !! "name" = None.
Proof.
  pose (run := toJSON Demo.creationRequest Demo.server None Demo.listening).
  pose (r := match run.1 with Ok r => r | Throw _ => ∅ end).
  assert (toJSON Demo.creationRequest Demo.server None Demo.listening = (Ok r, run.2))
    as H by (vm_compute; reflexivity).
  exists r, run.2. split; [exact H|].
  assert ("name" ∉ metadata_keys Demo.server Demo.listening) as Hmeta by by_computation.
  exact (name_is_left_out_when_falsy Demo.creationRequest Demo.server None Demo.listening
           r run.2 H eq_refl Hmeta).
Defined.

(** After the demo traffic the record shows two requests. *)
Lemma reported_counter_counts_requests_demo :
  exists r s',
    Demo.toJSON None (Demo.run Demo.listening Demo.traffic) = (Ok r, s')
    /\ r !! "numberOfRequests" = Some (FValue (VNum 2)).
Proof.
  pose (run := toJSON Demo.creationRequest Demo.server None
                 (Demo.run Demo.listening Demo.traffic)).
  pose (r := match run.1 with Ok r => r | Throw _ => ∅ end).
  assert (toJSON Demo.creationRequest Demo.server None
            (Demo.run Demo.listening Demo.traffic) = (Ok r, run.2))
    as H by (vm_compute; reflexivity).
  exists r, run.2. split; [exact H|].
  assert ("numberOfRequests"
          ∉ metadata_keys Demo.server (Demo.run Demo.listening Demo.traffic)) as Hmeta
    by by_computation.
  exact (reported_counter_counts_requests Demo.config Demo.creationRequest Demo.server
           Demo.imposterState Demo.Date_toJSON Demo.stubs_store Demo.traffic None
           r run.2 H eq_refl (or_intror Hmeta)).
Defined.


(** A serialization of the demo imposter without proxies only replaces lists
    of responses. *)
Lemma remove_proxies_only_rewires_demo :
  rewires
    (store (Demo.toJSON (just_list (Some {["removeProxies" := VBool true]}))
              Demo.listening).2)
    (store (Demo.toJSON (Some {["removeProxies" := VBool true]}) Demo.listening).2).
Proof.
  apply (remove_proxies_only_rewires Demo.creationRequest Demo.server).
  vm_compute. reflexivity.
Defined.

(** A stub that was added without responses, object 14, makes the replayable
    serialization throw. *)
Lemma replayable_needs_responses_demo :
  responses_of (store (Demo.run Demo.listening [AddStub (VRef 14)])) (VRef 14) = None
  /\ exists e,
       (Demo.toJSON (Some {["replayable" := VBool true]})
          (Demo.run Demo.listening [AddStub (VRef 14)])).1 = Throw e.
Proof.
  pose (options := Some ({["replayable" := VBool true]} : gmap string value)).
  pose (s := Demo.run Demo.listening [AddStub (VRef 14)]).
  pose (run := toJSON Demo.creationRequest Demo.server (just_list options) s).
  pose (base := match run.1 with Ok r => r | Throw _ => ∅ end).
  assert (toJSON Demo.creationRequest Demo.server (just_list options) s = (Ok base, run.2))
    as H by (vm_compute; reflexivity).
  assert (base !! "stubs" = Some (FValue (VRef 0))) as Hstubs by (vm_compute; reflexivity).
  assert (elems (store run.2) (VRef 0) = Some [VRef 1; VRef 4; VRef 14]) as Hall
    by (vm_compute; reflexivity).
  assert (responses_of (store run.2) (VRef 14) = None) as Hnone
    by (vm_compute; reflexivity).
  split; [vm_compute; reflexivity|].
  apply (replayable_needs_responses Demo.creationRequest Demo.server options s base run.2
           (VRef 0) [VRef 1; VRef 4; VRef 14] (VRef 14) eq_refl H Hstubs Hall);
    [|exact Hnone].
  apply list_elem_of_further, list_elem_of_further, list_elem_of_here.
Defined.

(** What the summary throws when asked to be replayable is a [TypeError]. *)
Lemma toJSON_throws_type_errors_demo :
  exists e s',
    Demo.toJSON (Some (<["list" := VBool true]> {["replayable" := VBool true]}))
      Demo.listening = (Throw e, s')
    /\ (e = TypeError
        \/ exists h,
             Server.stubs_stubs Demo.server (store Demo.listening) = (Throw e, h)).
Proof.
  pose (options :=
          Some (<["list" := VBool true]> ({["replayable" := VBool true]}
                                            : gmap string value))).
  pose (run := toJSON Demo.creationRequest Demo.server options Demo.listening).
  pose (e := match run.1 with Ok _ => Thrown VUndefined | Throw e => e end).
  assert (toJSON Demo.creationRequest Demo.server options Demo.listening = (Throw e, run.2))
    as H by (vm_compute; reflexivity).
  exists e, run.2. split; [exact H|].
  exact (toJSON_throws_type_errors Demo.creationRequest Demo.server options Demo.listening
           e run.2 H).
Defined.
